(** * build.py: the build registry (BuildDir), build records (BuildInfo)
      and platform targets (PlatformInfo)

    A shallow embedding of [src/build.py].  Python objects are modelled
    with explicit object identities, the module's mutable state (the
    registry object, the heap of constructed records, the disk and the
    standard output) is threaded through a state-and-exception monad in
    which the state survives a raised exception, as it does in Python. *)

From Stdlib Require Import Ascii String.
From stdpp Require Import gmap strings list fin_maps pretty relations.

Open Scope string_scope.

(** ** Python values and exceptions *)

(** [PlatformInfo] instances: the two attributes set by [__init__]. *)
Record PlatformInfo := mkPlatformInfo {
  pi_platform : string;
  pi_arch : string
}.

(** The values that reach the registry.  [VMethod] is a bound method,
    [VObj] any other object (module, class, function, set), named by
    its type. *)
Inductive pyval :=
| VNone
| VBool (b : bool)
| VStr (s : string)
| VPlatformInfo (p : PlatformInfo)
| VMethod (cls name : string)
| VObj (ty : string).

Inductive exn :=
| Exception (msg : string)
| AttributeError (ty attr : string)
| NameError (name : string)
| TypeError (msg : string)
| FileNotFoundError (path : string)
| NotADirectoryError (path : string).

Abbreviation result A := (exn + A)%type.

(** ** Strings: [str.lower], [in], [startswith], [endswith] *)

Definition ascii_lower (c : Ascii.ascii) : Ascii.ascii :=
  let n := Ascii.nat_of_ascii c in
  if (65 <=? n)%nat && (n <=? 90)%nat then Ascii.ascii_of_nat (n + 32) else c.

(** [s.lower()] on ASCII text. *)
Fixpoint lower (s : string) : string :=
  match s with
  | EmptyString => EmptyString
  | String c s' => String (ascii_lower c) (lower s')
  end.

(** [s in t] for two strings: [s] occurs in [t] as a contiguous run. *)
Fixpoint str_in (s t : string) : bool :=
  String.prefix s t ||
  match t with
  | EmptyString => false
  | String _ t' => str_in s t'
  end.

(** [x in xs] for a tuple of strings. *)
Definition tuple_in (x : string) (xs : list string) : bool :=
  existsb (String.eqb x) xs.

Definition startswith (s sep : string) : bool := String.prefix sep s.

Fixpoint endswith_char (s : string) (c : Ascii.ascii) : bool :=
  match s with
  | EmptyString => false
  | String d EmptyString => Ascii.eqb d c
  | String _ s' => endswith_char s' c
  end.

(** ** [os.path.join] (posixpath) *)

Definition sep : string := "/".

(** One round of the loop of [posixpath.join]. *)
Definition join_step (path b : string) : string :=
  if startswith b sep then b
  else if String.eqb path "" || endswith_char path "/"%char then path ++ b
  else path ++ sep ++ b.

Definition os_path_join (a : string) (p : list string) : string :=
  fold_left join_step p a.

(** ** PlatformInfo *)

Definition ALL_PLATFORMS : list string := ["mac"; "windows"; "linux"].

Definition PLATFORM_ALIASES : gmap string (string * string) :=
  list_to_map
    [ ("macos", ("mac", "x86_64"));
      ("win", ("windows", "x86_64"));
      ("win32", ("windows", "x86"));
      ("win64", ("windows", "x86_64")) ].

(** [PlatformInfo.__init__(self, platform, arch='x86_64')].  The last
    test of the source is [arch not in ('x86_64')]: the parentheses do
    not make a tuple, so [in] is the substring test on the string
    ['x86_64']. *)
Definition PlatformInfo_init (platform arch : string) : result PlatformInfo :=
  let platform := lower platform in
  let arch := lower arch in
  let platform := lower platform in
  let arch := lower arch in
  let '(platform, arch) :=
    match PLATFORM_ALIASES !! platform with
    | Some pa => pa
    | None => (platform, arch)
    end in
  if negb (tuple_in platform ALL_PLATFORMS) then
    inl (Exception ("invalid platform target " ++ platform))
  else if negb (str_in arch "x86_64") then
    inl (Exception ("invalid architecture (expected x86_64) '" ++ platform ++ "'"))
  else inr (mkPlatformInfo platform arch).

(** The default value of the [arch] parameter. *)
Definition PlatformInfo_new (platform : string) : result PlatformInfo :=
  PlatformInfo_init platform "x86_64".

(** [PlatformInfo.all()]: [map(PlatformInfo, ALL_PLATFORMS)]. *)
Definition PlatformInfo_all : list (result PlatformInfo) :=
  map PlatformInfo_new ALL_PLATFORMS.

(** ** The disk, build records, the registry and the module state *)

(** The disk as the program observes it: what [os.path.exists] and
    [os.listdir] answer for a path string. *)
Inductive node :=
| File
| Dir (names : list string).

(** A [BuildInfo] instance.  [oid] is the identity of the object
    ([id(self)]): the class defines neither [__eq__] nor [__hash__], so
    a set of records compares its members by identity.  Each of the six
    metadata attributes is [None] while the attribute has not been
    assigned, and [Some v] once it holds the value [v]. *)
Record BuildInfo := mkBuildInfo {
  oid : nat;
  build_path : string;
  build_info_path : string;
  platform : string;
  version : string;
  status : option pyval;
  app_path : option pyval;
  exec_path : option pyval;
  zip_path : option pyval;
  branch : option pyval;
  commit : option pyval
}.

(** A [BuildDir] instance.  [_build_list] is [None] (unloaded) or a
    set of records, kept as the list of its members without repeated
    identities; the order of the list stands for the iteration order
    of the set. *)
Record BuildDir := mkBuildDir {
  build_dir : string;
  _build_list : option (list BuildInfo)
}.

Record World := mkWorld {
  disk : gmap string node;
  heap : list BuildInfo;      (* every record constructed so far, by [oid] *)
  stdout : list string;       (* what [print] has written *)
  BUILD_DIR : string;         (* the module constant *)
  this : BuildDir             (* the registry the methods run on *)
}.

Definition set_disk (d : gmap string node) (w : World) : World :=
  mkWorld d (heap w) (stdout w) (BUILD_DIR w) (this w).
Definition set_heap (h : list BuildInfo) (w : World) : World :=
  mkWorld (disk w) h (stdout w) (BUILD_DIR w) (this w).
Definition set_stdout (o : list string) (w : World) : World :=
  mkWorld (disk w) (heap w) o (BUILD_DIR w) (this w).
Definition set_build_list (l : option (list BuildInfo)) (w : World) : World :=
  mkWorld (disk w) (heap w) (stdout w) (BUILD_DIR w)
          (mkBuildDir (build_dir (this w)) l).

(** The module-level choice of [BUILD_DIR]. *)
Definition module_BUILD_DIR (d : gmap string node) : string :=
  match d !! "../Assets" with
  | Some _ => "../Builds"
  | None => "Builds"
  end.

(** [BuildDir.__init__(self, build_dir=None)]: [build_dir or BUILD_DIR]. *)
Definition BuildDir_init (BUILD_DIR : string) (build_dir : option string) : BuildDir :=
  mkBuildDir
    (match build_dir with
     | Some d => if String.eqb d "" then BUILD_DIR else d
     | None => BUILD_DIR
     end)
    None.

(** ** The monad of methods: state and exceptions *)

Definition M (A : Type) : Type := World → result A * World.

Definition ret {A} (a : A) : M A := λ w, (inr a, w).
Definition raise {A} (e : exn) : M A := λ w, (inl e, w).
Definition bind {A B} (m : M A) (k : A → M B) : M B :=
  λ w, match m w with
       | (inr a, w') => k a w'
       | (inl e, w') => (inl e, w')
       end.
Definition lift {A} (r : result A) : M A := λ w, (r, w).
Definition gets {A} (f : World → A) : M A := λ w, (inr (f w), w).
Definition modify (f : World → World) : M unit := λ w, (inr tt, f w).

Declare Scope py_scope.
Delimit Scope py_scope with py.
Notation "x ← y ; z" := (bind y (λ x, z))
  (at level 20, y at level 100, z at level 200, only parsing) : py_scope.
Notation "x ;; z" := (bind x (λ _, z))
  (at level 100, z at level 200, only parsing, right associativity) : py_scope.
Open Scope py_scope.

(** [for x in xs: body(x)] *)
Fixpoint for_each {A} (xs : list A) (body : A → M unit) : M unit :=
  match xs with
  | [] => ret tt
  | x :: xs' => body x ;; for_each xs' body
  end.

(** A list comprehension [[f(x) for x in xs if c(x)]], where [step x]
    gives [Some (f x)] when [c x] holds. *)
Fixpoint comprehension {A B} (xs : list A) (step : A → M (option B)) : M (list B) :=
  match xs with
  | [] => ret []
  | x :: xs' =>
      r ← step x;
      rs ← comprehension xs' step;
      ret (match r with Some y => y :: rs | None => rs end)
  end.

Definition print (s : string) : M unit :=
  modify (λ w, set_stdout (stdout w ++ [s]) w).

(** ** [os] and [shutil] *)

Definition os_path_exists (p : string) : M bool :=
  gets (λ w, match disk w !! p with Some _ => true | None => false end).

Definition os_listdir (p : string) : M (list string) :=
  λ w, match disk w !! p with
       | Some (Dir names) => (inr names, w)
       | Some File => (inl (NotADirectoryError p), w)
       | None => (inl (FileNotFoundError p), w)
       end.

(** [p] itself or a path below it. *)
Definition under (p k : string) : bool :=
  String.eqb k p || startswith k (p ++ sep).

Definition shutil_rmtree (arg : pyval) : M unit :=
  match arg with
  | VStr p =>
      ex ← os_path_exists p;
      if ex then modify (λ w, set_disk (filter (λ kv, under p kv.1 = false) (disk w)) w)
      else raise (FileNotFoundError p)
  | _ => raise (TypeError "expected str, bytes or os.PathLike object")
  end.

(** ** BuildInfo *)

(** The attributes assigned before the metadata branch of [__init__]. *)
Definition BuildInfo_bare (o : nat) (bp bip platform version : string) : BuildInfo :=
  mkBuildInfo o bp bip platform version None None None None None None.

(** The [else] branch of [__init__]: the six attributes are set to [None]. *)
Definition BuildInfo_defaults (b : BuildInfo) : BuildInfo :=
  mkBuildInfo (oid b) (build_path b) (build_info_path b) (platform b) (version b)
              (Some VNone) (Some VNone) (Some VNone) (Some VNone) (Some VNone) (Some VNone).

(** [read] and [write]: [pass]. *)
Definition BuildInfo_read (b : BuildInfo) : M BuildInfo := ret b.
Definition BuildInfo_write (b : BuildInfo) : M BuildInfo := ret b.

(** [BuildInfo.__init__(self, build_path, platform, version)]; the new
    object is entered in the heap under a fresh identity. *)
Definition BuildInfo_init (build_path platform version : string) : M BuildInfo :=
  o ← gets (λ w, length (heap w));
  let bp := os_path_join build_path [platform; version] in
  let bip := os_path_join bp ["build_info.yaml"] in
  let b := BuildInfo_bare o bp bip platform version in
  ex ← os_path_exists bip;
  b ← (if ex : bool then BuildInfo_read b else ret (BuildInfo_defaults b));
  modify (λ w, set_heap (heap w ++ [b]) w);;
  ret b.

(** The names bound in the class body of [BuildInfo]. *)
Definition BuildInfo_class : list string :=
  ["get"; "get_or_create"; "__init__"; "read"; "write"].

(** Attribute lookup on an instance: the instance attributes, then the
    class. *)
Definition BuildInfo_getattr (b : BuildInfo) (name : string) : result pyval :=
  let assigned (o : option pyval) : result pyval :=
    match o with
    | Some v => inr v
    | None => inl (AttributeError "BuildInfo" name)
    end in
  if String.eqb name "build_path" then inr (VStr (build_path b))
  else if String.eqb name "build_info_path" then inr (VStr (build_info_path b))
  else if String.eqb name "platform" then inr (VStr (platform b))
  else if String.eqb name "version" then inr (VStr (version b))
  else if String.eqb name "status" then assigned (status b)
  else if String.eqb name "app_path" then assigned (app_path b)
  else if String.eqb name "exec_path" then assigned (exec_path b)
  else if String.eqb name "zip_path" then assigned (zip_path b)
  else if String.eqb name "branch" then assigned (branch b)
  else if String.eqb name "commit" then assigned (commit b)
  else if tuple_in name BuildInfo_class then inr (VMethod "BuildInfo" name)
  else inl (AttributeError "BuildInfo" name).

(** Calling a value with no arguments. *)
Definition call0 (f : pyval) : M pyval :=
  match f with
  | VMethod "BuildInfo" name =>
      if String.eqb name "read" || String.eqb name "write" then ret VNone
      else raise (TypeError "missing required positional arguments")
  | _ => raise (TypeError "object is not callable")
  end.

(** [b.name()] *)
Definition BuildInfo_call (b : BuildInfo) (name : string) : M pyval :=
  f ← lift (BuildInfo_getattr b name);
  call0 f.

Definition truthy (v : pyval) : bool :=
  match v with
  | VNone => false
  | VBool b => b
  | VStr s => negb (String.eqb s "")
  | _ => true
  end.

(** The default [repr] of an object, with its identity. *)
Definition BuildInfo_repr (b : BuildInfo) : string :=
  "<__main__.BuildInfo object at " ++ pretty (oid b) ++ ">".

(** ** BuildDir *)

(** [s.add(b)] on a set whose members are compared by identity. *)
Definition set_add (b : BuildInfo) (s : list BuildInfo) : list BuildInfo :=
  if existsb (λ x, Nat.eqb (oid x) (oid b)) s then s else s ++ [b].

(** [str == other]: a string is equal to nothing but an equal string;
    [PlatformInfo] defines no [__eq__]. *)
Definition str_eq (s : string) (other : pyval) : bool :=
  match other with
  | VStr t => String.eqb s t
  | _ => false
  end.

(** [platform.platform] in [get_or_create_build]. *)
Definition getattr_platform (v : pyval) : result string :=
  match v with
  | VPlatformInfo p => inr (pi_platform p)
  | VStr _ => inl (AttributeError "str" "platform")
  | VNone => inl (AttributeError "NoneType" "platform")
  | VBool _ => inl (AttributeError "bool" "platform")
  | VMethod _ _ => inl (AttributeError "method" "platform")
  | VObj ty => inl (AttributeError ty "platform")
  end.

(** The [path] property. *)
Definition path : M string := gets (λ w, build_dir (this w)).

Definition rebuild : M unit := modify (set_build_list None).

(** The value of [self._build_list] where the code uses it as a set;
    it is one after every [load] (see [get_build_list_leaves_loaded]). *)
Definition the_build_list : M (list BuildInfo) :=
  l ← gets (λ w, _build_list (this w));
  match l with
  | Some s => ret s
  | None => raise (TypeError "'NoneType' object is not iterable")
  end.

(** [get_build_list], [add_build] and [load] call one another: the
    three are first written over the [load] that [get_build_list]
    calls. *)
Definition get_build_list_with (load : M unit) : M (list BuildInfo) :=
  l ← gets (λ w, _build_list (this w));
  match l with
  | None =>
      modify (set_build_list (Some []));;
      load;;
      the_build_list
  | Some s => ret s
  end.

Definition add_build_with (load : M unit) (build : BuildInfo) : M unit :=
  s ← get_build_list_with load;
  modify (set_build_list (Some (set_add build s))).

Definition load_with (load : M unit) : M unit :=
  d ← gets (λ w, build_dir (this w));
  ex ← os_path_exists d;
  if negb ex then ret tt
  else
    let base_path := d in
    platform_folders ← os_listdir base_path;
    for_each platform_folders (λ platform_folder,
      let path_ := os_path_join base_path [platform_folder] in
      version_folders ← os_listdir path_;
      for_each version_folders (λ version_folder,
        root ← path;
        b ← BuildInfo_init root platform_folder version_folder;
        add_build_with load b)).

(** A [load] reached from [get_build_list] runs on a registry whose
    [_build_list] is a set and stays one, so it starts no further
    [load]: two rounds tie the knot (see [load_unfold]). *)
Definition load : M unit := load_with (load_with (ret tt)).
Definition get_build_list : M (list BuildInfo) := get_build_list_with load.
Definition add_build (build : BuildInfo) : M unit := add_build_with load build.

(** [get_build(self, platform, version)] *)
Definition get_build (platform_ : pyval) (version_ : string) : M (option BuildInfo) :=
  builds ← get_build_list;
  ret (List.find (λ build, str_eq (platform build) platform_
                           && String.eqb (version build) version_) builds).

(** [get_or_create_build(self, platform, version)] *)
Definition get_or_create_build (platform_ : pyval) (version_ : string) : M BuildInfo :=
  build_info ← get_build platform_ version_;
  match build_info with
  | None =>
      root ← path;
      p ← lift (getattr_platform platform_);
      build_info ← BuildInfo_init root p version_;
      add_build build_info;;
      ret build_info
  | Some build_info => ret build_info
  end.

(** Name lookup in the body of [clean]: the local names, then the
    names bound at module level before [clean_builds()] is called.  No
    builtin is called [build_dir]. *)
Definition clean_locals : list (string * pyval) :=
  [("self", VObj "BuildDir"); ("builds", VObj "set"); ("shutil", VObj "module")].

Definition module_globals (w : World) : list (string * pyval) :=
  [("argparse", VObj "module"); ("os", VObj "module");
   ("BUILD_DIR", VStr (BUILD_DIR w));
   ("parse_cli_args", VObj "function");
   ("PlatformInfo", VObj "type"); ("BuildDir", VObj "type"); ("BuildInfo", VObj "type");
   ("build_target", VObj "function"); ("fetch_build", VObj "function");
   ("run_build", VObj "function"); ("ask_user_if_build_ok", VObj "function");
   ("publish_build", VObj "function"); ("clean_builds", VObj "function");
   ("current_platform", VObj "PlatformInfo"); ("args", VObj "Namespace");
   ("build_targets", VObj "set")].

Fixpoint assoc (name : string) (env : list (string * pyval)) : option pyval :=
  match env with
  | [] => None
  | (k, v) :: env' => if String.eqb k name then Some v else assoc name env'
  end.

Definition lookup_name (locals : list (string * pyval)) (name : string) : M pyval :=
  globals ← gets module_globals;
  match assoc name (locals ++ globals) with
  | Some v => ret v
  | None => raise (NameError name)
  end.

Definition newline : string := String (Ascii.ascii_of_nat 10) "".

(** [clean(self)] *)
Definition clean : M unit :=
  d ← gets (λ w, build_dir (this w));
  ex ← os_path_exists d;
  if ex : bool then
    builds ← get_build_list;
    lines ← comprehension builds (λ build_info,
               e ← BuildInfo_call build_info "exists";
               ret (if truthy e
                    then Some (newline ++ "  " ++ BuildInfo_repr build_info)
                    else None));
    print ("removing " ++ pretty (length builds) ++ " local build(s):"
           ++ String.concat "" lines);;
    arg ← lookup_name clean_locals "build_dir";
    shutil_rmtree arg;;
    modify (set_build_list (Some []))
  else ret tt.

(** ** Notions used to state the properties *)

(** The identity of a record in the sense of the specification. *)
Definition identity (b : BuildInfo) : string * string := (platform b, version b).

(** The records of a set that carry a given identity. *)
Definition with_identity (p v : string) (s : list BuildInfo) : list BuildInfo :=
  List.filter (λ b, String.eqb (platform b) p && String.eqb (version b) v) s.

(** A process that has just created its registry on [root]. *)
Definition fresh_world (d : gmap string node) (root : string) : World :=
  mkWorld d [] [] (module_BUILD_DIR d) (BuildDir_init (module_BUILD_DIR d) (Some root)).

(** The object [BuildInfo(root, p, v)] when it is the [o]-th object
    constructed and the disk is [d]. *)
Definition constructed (d : gmap string node) (o : nat) (root p v : string) : BuildInfo :=
  let bp := os_path_join root [p; v] in
  let bip := os_path_join bp ["build_info.yaml"] in
  let b := BuildInfo_bare o bp bip p v in
  match d !! bip with
  | Some _ => b
  | None => BuildInfo_defaults b
  end.

Fixpoint mk_records (d : gmap string node) (root : string) (o : nat)
    (pairs : list (string * string)) : list BuildInfo :=
  match pairs with
  | [] => []
  | (p, v) :: pairs' => constructed d o root p v :: mk_records d root (S o) pairs'
  end.

(** The names in a directory, and the (first level, second level)
    name pairs below a root. *)
Definition listing (d : gmap string node) (p : string) : list string :=
  match d !! p with
  | Some (Dir names) => names
  | _ => []
  end.

Definition disk_pairs (d : gmap string node) (root : string) : list (string * string) :=
  flat_map (λ p, map (pair p) (listing d (os_path_join root [p]))) (listing d root).

Definition is_dirb (d : gmap string node) (p : string) : bool :=
  match d !! p with
  | Some (Dir _) => true
  | _ => false
  end.

(** The root is a directory and so is each of its entries: the two
    [os.listdir] levels of [load] succeed. *)
Definition scannable (d : gmap string node) (root : string) : bool :=
  is_dirb d root && forallb (λ p, is_dirb d (os_path_join root [p])) (listing d root).

(** [b] is an object that has been constructed. *)
Definition allocated (b : BuildInfo) (w : World) : Prop :=
  heap w !! oid b = Some b.

(** The members of the set are constructed objects and no object is a
    member twice; the objects of [pins] are constructed. *)
Definition Inv (pins : list BuildInfo) (w : World) : Prop :=
  (∀ b, b ∈ pins → allocated b w) ∧
  match _build_list (this w) with
  | Some s => NoDup (map oid s) ∧ ∀ b, b ∈ s → allocated b w
  | None => True
  end.

(** [_build_list] is a set. *)
Definition loaded (w : World) : Prop := is_Some (_build_list (this w)).

(** No two members of the set have the same (platform, version). *)
Definition identity_invariant (w : World) : Prop :=
  ∀ s, _build_list (this w) = Some s → NoDup (map identity s).

(** What a client of the registry can do, one call at a time; the
    disk may change between two calls. *)
Inductive step : World → World → Prop :=
| step_load w : step w (load w).2
| step_get_build_list w : step w (get_build_list w).2
| step_get_build w p v : step w (get_build p v w).2
| step_get_or_create_build w p v : step w (get_or_create_build p v w).2
| step_BuildInfo w root p v : step w (BuildInfo_init root p v w).2
| step_add_build w b : allocated b w → step w (add_build b w).2
| step_rebuild w : step w (rebuild w).2
| step_clean w : step w (clean w).2
| step_disk w d : step w (set_disk d w).

(** The states of a process that created its registry on some root
    and went through registry calls and changes of the disk. *)
Definition reachable (w : World) : Prop :=
  ∃ d root, rtc step (fresh_world d root) w.

(** A path component that is not empty and neither starts nor ends
    with the separator. *)
Definition plain (s : string) : Prop :=
  s ≠ "" ∧ startswith s sep = false ∧ endswith_char s "/" = false.

(** ** Sample inputs *)

Definition mac : PlatformInfo := mkPlatformInfo "mac" "x86_64".

(** [Builds/mac/v1.0/] is empty, [Builds/windows/v1.0/] holds a sidecar. *)
Definition disk_two : gmap string node :=
  list_to_map
    [ ("Builds", Dir ["mac"; "windows"]);
      ("Builds/mac", Dir ["v1.0"]);
      ("Builds/mac/v1.0", Dir []);
      ("Builds/windows", Dir ["v1.0"]);
      ("Builds/windows/v1.0", Dir ["build_info.yaml"]);
      ("Builds/windows/v1.0/build_info.yaml", File) ].

(** [disk_two] after [Builds/mac/v1.1/] has been created. *)
Definition disk_later : gmap string node :=
  <["Builds/mac" := Dir ["v1.0"; "v1.1"]]> (<["Builds/mac/v1.1" := Dir []]> disk_two).

(** A root with a folder that names no platform. *)
Definition disk_notes : gmap string node :=
  list_to_map
    [ ("Builds", Dir ["notes"]);
      ("Builds/notes", Dir ["old"]);
      ("Builds/notes/old", Dir []) ].

(** Hoare triples over [M]: the postcondition sees the outcome, a
    value or an exception, and the state it leaves. *)
Definition triple {A} (P : World → Prop) (m : M A) (Q : result A → World → Prop) : Prop :=
  ∀ w, P w → Q (m w).1 (m w).2.

Definition stable {A} (I : World → Prop) (m : M A) : Prop :=
  triple I m (λ _, I).

(** ** The rest of [PlatformInfo] *)

(** [__repr__], which [str] and the f-strings use. *)
Definition PlatformInfo_repr (t : PlatformInfo) : string :=
  pi_platform t ++ " " ++ pi_arch t.

(** [PlatformInfo.current()] where [platform.platform()] returns
    [platform_platform]. *)
Definition PlatformInfo_current (platform_platform : string) : result PlatformInfo :=
  let platform_info := lower platform_platform in
  match
    (if str_in "darwin" platform_info then inr "mac"
     else if str_in "windows" platform_info then inr "windows"
     else if str_in "linux" platform_info then inr "linux"
     else inl (Exception ("Unhandled platform returned by platform.platform()! "
                          ++ platform_info)))
  with
  | inl e => inl e
  | inr current_platform =>
      if str_in "64" platform_info then
        let current_platform_arch := "x86_64" in
        PlatformInfo_init current_platform current_platform_arch
      else
        inl (Exception ("You don't seem to be running on a 64 bit OS...? (got platform info '"
                        ++ platform_info ++ "'"))
  end.

(** The values of an iterable of constructions, up to the first that
    raises. *)
Fixpoint collect {A} (rs : list (result A)) : result (list A) :=
  match rs with
  | [] => inr []
  | inl e :: _ => inl e
  | inr a :: rs' =>
      match collect rs' with
      | inl e => inl e
      | inr l => inr (a :: l)
      end
  end.

(** ** The process: the singleton registry, the console and [exit] *)

(** What ends a run besides the exceptions of the registry. *)
Inductive signal :=
| Raised (e : exn)
| SystemExit
| EOFError.

(** [BuildDir.instance] is [None] while [has_instance] is [false] and
    is the registry [this world] afterwards; [stdin] holds the lines
    that [input] has not read yet. *)
Record Process := mkProcess {
  world : World;
  has_instance : bool;
  stdin : list string
}.

Definition set_world (w : World) (p : Process) : Process :=
  mkProcess w (has_instance p) (stdin p).

Definition set_this (b : BuildDir) (w : World) : World :=
  mkWorld (disk w) (heap w) (stdout w) (BUILD_DIR w) b.

(** The process as [python build.py] starts it. *)
Definition boot (d : gmap string node) (lines : list string) : Process :=
  mkProcess (fresh_world d "") false lines.

Definition P (A : Type) : Type := Process → (signal + A) * Process.

Definition pret {A} (a : A) : P A := λ p, (inr a, p).
Definition praise {A} (s : signal) : P A := λ p, (inl s, p).
Definition pbind {A B} (m : P A) (k : A → P B) : P B :=
  λ p, match m p with
       | (inr a, p') => k a p'
       | (inl s, p') => (inl s, p')
       end.

Declare Scope proc_scope.
Delimit Scope proc_scope with proc.
Notation "x ← y ; z" := (pbind y (λ x, z))
  (at level 20, y at level 100, z at level 200, only parsing) : proc_scope.
Notation "x ;; z" := (pbind x (λ _, z))
  (at level 100, z at level 200, only parsing, right associativity) : proc_scope.

(** A call that runs in the state of the registry. *)
Definition method {A} (m : M A) : P A :=
  λ p, match m (world p) with
       | (inr a, w') => (inr a, set_world w' p)
       | (inl e, w') => (inl (Raised e), set_world w' p)
       end.

Definition plift {A} (r : result A) : P A :=
  λ p, (match r with inl e => inl (Raised e) | inr a => inr a end, p).

Fixpoint pfor_each {A} (xs : list A) (body : A → P unit) : P unit :=
  match xs with
  | [] => pret tt
  | x :: xs' => (body x ;; pfor_each xs' body)%proc
  end.

(** [BuildDir.get()]: the instance is created on the first call. *)
Definition BuildDir_get : P unit :=
  λ p, if has_instance p then (inr tt, p)
       else (inr tt,
             mkProcess (set_this (BuildDir_init (BUILD_DIR (world p))
                                                (Some (BUILD_DIR (world p))))
                                 (world p))
                       true (stdin p)).

(** [BuildDir.get_builds()] *)
Definition BuildDir_get_builds : P (list BuildInfo) :=
  (BuildDir_get ;; method get_build_list)%proc.

(** [BuildInfo.get(platform, version)] *)
Definition BuildInfo_get (platform_ : pyval) (version_ : string) : P (option BuildInfo) :=
  (BuildDir_get ;; method (get_build platform_ version_))%proc.

(** [BuildInfo.get_or_create(platform, version)] *)
Definition BuildInfo_get_or_create (platform_ : pyval) (version_ : string) : P BuildInfo :=
  (BuildDir_get ;; method (get_or_create_build platform_ version_))%proc.

Definition build_target (target : PlatformInfo) (version_ : string) : P unit :=
  (method (print ("building " ++ version_ ++ " for " ++ PlatformInfo_repr target)) ;;
   info ← BuildInfo_get_or_create (VPlatformInfo target) version_ ;
   pret tt)%proc.

Definition fetch_build (target : PlatformInfo) (version_ : string) : P unit :=
  (method (print ("fetching " ++ version_ ++ " for " ++ PlatformInfo_repr target)) ;;
   info ← BuildInfo_get_or_create (VPlatformInfo target) version_ ;
   pret tt)%proc.

Definition run_build (target : PlatformInfo) (version_ : string) : P unit :=
  (method (print ("running " ++ version_ ++ " as " ++ PlatformInfo_repr target)) ;;
   info ← BuildInfo_get (VPlatformInfo target) version_ ;
   pret tt)%proc.

Definition publish_build (version_ : string) : P unit :=
  method (print ("publishing build(s) as " ++ version_ ++ " (TBD)")).

Definition clean_builds : P unit :=
  (BuildDir_get ;; method clean)%proc.

(** The prompt of [input], written as it is. *)
Definition prompt : string := "is build ok? y/n" ++ newline.

(** The loop of [ask_is_build_ok] over the lines still to be read: the
    answer or [EOFError], the lines left, and what was written. *)
Fixpoint ask_loop (lines : list string) : (signal + bool) * list string * list string :=
  match lines with
  | [] => (inl EOFError, [], [prompt])
  | line :: rest =>
      let result_ := lower line in
      if str_in "y" result_ then (inr true, rest, [prompt])
      else if str_in "n" result_ then (inr false, rest, [prompt])
      else
        let '(r, rest', out) := ask_loop rest in
        (r, rest', prompt :: "invalid response" :: out)
  end.

Definition ask_is_build_ok : P bool :=
  λ p, let '(r, rest, out) := ask_loop (stdin p) in
       (r, mkProcess (set_stdout (stdout (world p) ++ out) (world p))
                     (has_instance p) rest).

Definition ask_user_if_build_ok : P unit :=
  (ok ← ask_is_build_ok ;
   if negb ok then praise SystemExit else pret tt)%proc.

(** The namespace that [parse_cli_args] returns. *)
Record Args := mkArgs {
  arg_version : option string;
  arg_build_target : option string;
  arg_build_all : bool;
  arg_build_current : bool;
  arg_run : bool;
  arg_fetch : bool;
  arg_publish : bool;
  arg_clean : bool
}.

(** [args.version or 'latest'] *)
Definition version_or_latest (v : option string) : string :=
  match v with
  | Some s => if String.eqb s "" then "latest" else s
  | None => "latest"
  end.

(** The module body under [if __name__ == '__main__'].  [order] is the
    order in which the set [build_targets] hands out its members. *)
Definition main (order : list PlatformInfo → list PlatformInfo)
    (platform_platform : string) (args : Args) : P unit :=
  (current_platform ← plift (PlatformInfo_current platform_platform) ;
   method (print ("detected platform: " ++ PlatformInfo_repr current_platform)) ;;
   build_targets ←
     (if arg_build_all args then plift (collect PlatformInfo_all)
      else match arg_build_target args with
           | Some t => x ← plift (PlatformInfo_new t) ; pret [x]
           | None => if arg_build_current args then pret [current_platform] else pret []
           end) ;
   let build_targets := order build_targets in
   fetch ←
     (match build_targets with
      | _ :: _ =>
          if arg_fetch args then
            method (print ("ignoring --fetch since build target(s) provided: "
                           ++ String.concat ", " (map PlatformInfo_repr build_targets))) ;;
            pret false
          else pret (arg_fetch args)
      | [] => pret (arg_fetch args)
      end) ;
   let version_ := version_or_latest (arg_version args) in
   (if arg_clean args then clean_builds else pret tt) ;;
   pfor_each build_targets (λ target, build_target target version_) ;;
   (if fetch : bool then fetch_build current_platform version_ else pret tt) ;;
   (if arg_run args then run_build current_platform version_ else pret tt) ;;
   (if arg_publish args && arg_run args then ask_user_if_build_ok else pret tt) ;;
   (if arg_publish args then publish_build version_ else pret tt))%proc.

(** ** Notions for the properties of the process *)

(** Hoare triples over [P]. *)
Definition pstable {A} (I : Process → Prop) (m : P A) : Prop :=
  ∀ p, I p → I (m p).2.

(** A line of output that starts with [prefix]. *)
Definition starts (prefix : string) (line : string) : bool := String.prefix prefix line.

(** The state that no registry call touches: the disk, the root of the
    registry and the module constant. *)
Definition frame (w0 : World) (_ : list BuildInfo) (w : World) : Prop :=
  disk w = disk w0 ∧ build_dir (this w) = build_dir (this w0) ∧ BUILD_DIR w = BUILD_DIR w0.

(** The build targets that [main] computes from the flags. *)
Definition targets_of (args : Args) (current_platform : PlatformInfo)
    : result (list PlatformInfo) :=
  if arg_build_all args then collect PlatformInfo_all
  else match arg_build_target args with
       | Some t =>
           match PlatformInfo_new t with
           | inl e => inl e
           | inr x => inr [x]
           end
       | None => if arg_build_current args then inr [current_platform] else inr []
       end.

(** Triples over [P], as over [M]. *)
Definition ptriple {A} (I : Process → Prop) (m : P A)
    (Q : signal + A → Process → Prop) : Prop :=
  ∀ p, I p → Q (m p).1 (m p).2.

(** A step that keeps [J] when it returns and leaves [E s] when it ends
    in [s]; a last step that leaves [F] when it returns. *)
Definition pfinal {A} (J : Process → Prop) (E : signal → Process → Prop)
    (F : Process → Prop) (m : P A) : Prop :=
  ptriple J m (λ r q, match r with inr _ => F q | inl s => E s q end).

Definition pstep {A} (J : Process → Prop) (E : signal → Process → Prop) (m : P A) : Prop :=
  pfinal J E J m.

(** A computation that ends, if not normally, in an exception of the
    registry or of [PlatformInfo]. *)
Definition raised_only {A} (m : P A) : Prop :=
  ∀ p s, (m p).1 = inl s → ∃ e, s = Raised e.

(** No line of the output so far starts with [tag]. *)
Definition quiet (tag : string) (p : Process) : Prop :=
  Forall (λ line, starts tag line = false) (stdout (world p)).

(** The root of the registry that [BuildDir.get()] returns. *)
Definition registry_root (p : Process) : string :=
  if has_instance p then build_dir (this (world p)) else BUILD_DIR (world p).

(** A process in which the calls that [main] makes to the registry go
    through: the root can be scanned, or it is missing (with [--clean]
    it has to be missing), and a registry that exists holds a set of
    constructed objects. *)
Definition sound (clean_ : bool) (p : Process) : Prop :=
  ((clean_ = false ∧ scannable (disk (world p)) (registry_root p) = true)
   ∨ disk (world p) !! registry_root p = None) ∧
  (has_instance p = true → Inv [] (world p)).

(** The line that [build_target] prints. *)
Definition building_line (v : string) (t : PlatformInfo) : string :=
  "building " ++ v ++ " for " ++ PlatformInfo_repr t.

(** A line that [ask_is_build_ok] takes for an answer. *)
Definition decisive (line : string) : bool :=
  str_in "y" (lower line) || str_in "n" (lower line).

(** What the loop writes for the lines that are no answer. *)
Definition retries (skipped : list string) : list string :=
  flat_map (λ _, [prompt; "invalid response"]) skipped.

(** * Properties *)

Open Scope list_scope.

(** ** The definitions at work *)

Example os_path_join_relative : os_path_join "Builds" ["mac"; "v1"] = "Builds/mac/v1".
Proof. reflexivity. Qed.

Example os_path_join_absolute : os_path_join "Builds" ["mac"; "/tmp/v1"] = "/tmp/v1".
Proof. reflexivity. Qed.

Example os_path_join_empty_root : os_path_join "" ["mac"; "v1"] = "mac/v1".
Proof. reflexivity. Qed.

Example PlatformInfo_upper_case :
  PlatformInfo_init "MAC" "X86_64" = inr (mkPlatformInfo "mac" "x86_64").
Proof. vm_compute. reflexivity. Qed.

Example PlatformInfo_unknown_platform :
  PlatformInfo_new "solaris" = inl (Exception "invalid platform target solaris").
Proof. vm_compute. reflexivity. Qed.

(** An alias replaces the architecture that was given. *)
Example PlatformInfo_alias_overrides_arch :
  PlatformInfo_init "macOS" "arm" = inr (mkPlatformInfo "mac" "x86_64").
Proof. vm_compute. reflexivity. Qed.

Example PlatformInfo_all_ok :
  PlatformInfo_all
  = [inr (mkPlatformInfo "mac" "x86_64"); inr (mkPlatformInfo "windows" "x86_64");
     inr (mkPlatformInfo "linux" "x86_64")].
Proof. vm_compute. reflexivity. Qed.

(** The first read of a registry on [disk_two] finds its two builds. *)
Example get_build_list_disk_two :
  (builds ← get_build_list; ret (map oid builds, map identity builds))
    (fresh_world disk_two "Builds")
  = (inr ([0; 1], [("mac", "v1.0"); ("windows", "v1.0")]),
     (get_build_list (fresh_world disk_two "Builds")).2).
Proof. vm_compute. reflexivity. Qed.

(** [load] called on an unloaded registry: the first [add_build] goes
    through [get_build_list], which runs a whole [load] of its own
    before the first record, already constructed, is added. *)
Example load_on_unloaded_registry :
  (load;; builds ← the_build_list; ret (map oid builds, map identity builds))
    (fresh_world disk_two "Builds")
  = (inr ([1; 2; 0; 3],
          [("mac", "v1.0"); ("windows", "v1.0"); ("mac", "v1.0"); ("windows", "v1.0")]),
     (load (fresh_world disk_two "Builds")).2).
Proof. vm_compute. reflexivity. Qed.

(** With a string for the platform, a record that the scan found is
    returned as it is, twice. *)
Example get_or_create_build_str_twice :
  (b1 ← get_or_create_build (VStr "mac") "v1.0";
   b2 ← get_or_create_build (VStr "mac") "v1.0";
   builds ← get_build_list;
   ret (oid b1, oid b2, map identity builds)) (fresh_world disk_two "Builds")
  = (inr (0, 0, [("mac", "v1.0"); ("windows", "v1.0")]),
     (get_build_list (fresh_world disk_two "Builds")).2).
Proof. vm_compute. reflexivity. Qed.

(** A first-level entry that is a file stops the scan. *)
Example get_build_list_file_entry :
  (get_build_list
     (fresh_world (list_to_map [("Builds", Dir [".DS_Store"]); ("Builds/.DS_Store", File)])
                  "Builds")).1
  = inl (NotADirectoryError "Builds/.DS_Store").
Proof. vm_compute. reflexivity. Qed.

(** ** Rules of the triples *)

Section Rules.
Context {A B : Type}.
Implicit Types (P I : World → Prop).

Lemma triple_ret P (a : A) (Q : result A → World → Prop) :
  (∀ w, P w → Q (inr a) w) → triple P (ret a) Q.
Proof. intros H w HP. by apply H. Qed.

Lemma triple_raise P (e : exn) (Q : result A → World → Prop) :
  (∀ w, P w → Q (inl e) w) → triple P (raise e) Q.
Proof. intros H w HP. by apply H. Qed.

Lemma triple_bind P (m : M A) (k : A → M B) Q (R : result B → World → Prop) :
  triple P m Q →
  (∀ e w, Q (inl e) w → R (inl e) w) →
  (∀ a, triple (Q (inr a)) (k a) R) →
  triple P (bind m k) R.
Proof.
  intros Hm He Hk w HP. specialize (Hm w HP). unfold bind.
  destruct (m w) as [[e|a] w']; simpl in *; [by apply He | by apply Hk].
Qed.

Lemma triple_conseq (P P' : World → Prop) (m : M A) (Q Q' : result A → World → Prop) :
  triple P m Q → (∀ w, P' w → P w) → (∀ r w, Q r w → Q' r w) → triple P' m Q'.
Proof. intros Hm HP HQ w Hw. apply HQ, Hm, HP, Hw. Qed.

Lemma stable_ret I (a : A) : stable I (ret a).
Proof. by apply triple_ret. Qed.

Lemma stable_raise I (e : exn) : stable (A:=A) I (raise e).
Proof. by apply triple_raise. Qed.

Lemma stable_lift I (r : result A) : stable I (lift r).
Proof. by intros w Hw. Qed.

Lemma stable_gets I (f : World → A) : stable I (gets f).
Proof. by intros w Hw. Qed.

Lemma stable_bind I (m : M A) (k : A → M B) :
  stable I m → (∀ a, stable I (k a)) → stable I (bind m k).
Proof. intros Hm Hk. eapply triple_bind; [exact Hm | done | exact Hk]. Qed.
End Rules.

(** One step of a sequence. *)
Lemma bind_run {A B} (m : M A) (k : A → M B) w :
  bind m k w = match m w with
               | (inr a, w') => k a w'
               | (inl e, w') => (inl e, w')
               end.
Proof. reflexivity. Qed.

Lemma stable_modify I (f : World → World) :
  (∀ w, I w → I (f w)) → stable I (modify f).
Proof. intros H w Hw. by apply H. Qed.

Lemma stable_for_each {A} I (xs : list A) (body : A → M unit) :
  (∀ x, x ∈ xs → stable I (body x)) → stable I (for_each xs body).
Proof.
  induction xs as [|x xs IH]; intros Hb; simpl.
  - apply stable_ret.
  - apply stable_bind.
    + apply Hb. by left.
    + intros _. apply IH. intros y Hy. apply Hb. by right.
Qed.

Lemma stable_comprehension {A B} I (xs : list A) (f : A → M (option B)) :
  (∀ x, stable I (f x)) → stable I (comprehension xs f).
Proof.
  intros Hf. induction xs as [|x xs IH]; simpl.
  - apply stable_ret.
  - apply stable_bind; [apply Hf |]. intros r.
    apply stable_bind; [apply IH |]. intros rs. apply stable_ret.
Qed.

Lemma stable_os_path_exists I p : stable I (os_path_exists p).
Proof. apply stable_gets. Qed.

Lemma stable_os_listdir I p : stable I (os_listdir p).
Proof.
  intros w Hw. unfold os_listdir. by destruct (disk w !! p) as [[|names]|].
Qed.

Lemma stable_the_build_list I : stable I the_build_list.
Proof.
  apply stable_bind; [apply stable_gets |].
  intros [s|]; [apply stable_ret | apply stable_raise].
Qed.

Lemma stable_BuildInfo_call I b name : stable I (BuildInfo_call b name).
Proof.
  apply stable_bind; [apply stable_lift |]. intros f. unfold call0.
  destruct f; try apply stable_raise.
  repeat case_match; first [apply stable_ret | apply stable_raise].
Qed.

(** ** What one call computes *)

Lemma BuildInfo_init_eq root p v w :
  let b := constructed (disk w) (length (heap w)) root p v in
  BuildInfo_init root p v w = (inr b, set_heap (heap w ++ [b]) w).
Proof.
  unfold BuildInfo_init, constructed, bind, gets, os_path_exists, modify, ret,
    BuildInfo_read. simpl.
  by destruct (disk w !! _).
Qed.

Lemma constructed_oid d o root p v : oid (constructed d o root p v) = o.
Proof. unfold constructed. by case_match. Qed.

Lemma constructed_identity d o root p v : identity (constructed d o root p v) = (p, v).
Proof. unfold constructed, identity. by case_match. Qed.

(** The lookup of [build_dir] in [clean] finds no binding. *)
Lemma lookup_build_dir w :
  lookup_name clean_locals "build_dir" w = (inl (NameError "build_dir"), w).
Proof. reflexivity. Qed.

(** No [BuildInfo] has an attribute [exists]. *)
Lemma BuildInfo_getattr_exists b :
  BuildInfo_getattr b "exists" = inl (AttributeError "BuildInfo" "exists").
Proof. reflexivity. Qed.

(** ** Invariants of the registry methods *)

(** A family of state predicates, indexed by the records the caller
    holds, that the elementary state changes of the methods preserve,
    is preserved by every method, whatever its outcome. *)
Section Stability.
Variable I : list BuildInfo → World → Prop.
Hypothesis I_weaken : ∀ b pins w, I (b :: pins) w → I pins w.
Hypothesis I_alloc : ∀ b pins w,
  I pins w → oid b = length (heap w) → I (b :: pins) (set_heap (heap w ++ [b]) w).
Hypothesis I_stdout : ∀ o pins w, I pins w → I pins (set_stdout o w).
Hypothesis I_unload : ∀ pins w, I pins w → I pins (set_build_list None w).
Hypothesis I_empty : ∀ pins w, I pins w → I pins (set_build_list (Some []) w).
Hypothesis I_add : ∀ b s pins w,
  I pins w → b ∈ pins → _build_list (this w) = Some s →
  I pins (set_build_list (Some (set_add b s)) w).

Lemma BuildInfo_init_pins pins root p v :
  triple (I pins) (BuildInfo_init root p v)
         (λ r w, ∃ b, r = inr b ∧ I (b :: pins) w).
Proof.
  intros w Hw. rewrite BuildInfo_init_eq. simpl. eexists. split; [done |].
  apply I_alloc; [done | apply constructed_oid].
Qed.

Lemma stable_BuildInfo_init pins root p v : stable (I pins) (BuildInfo_init root p v).
Proof.
  eapply triple_conseq; [apply BuildInfo_init_pins | done |].
  intros r w (b & _ & Hb). by eapply I_weaken.
Qed.

Lemma get_build_list_with_spec L pins :
  stable (I pins) L →
  triple (I pins) (get_build_list_with L)
         (λ r w, I pins w ∧ ∀ s, r = inr s → _build_list (this w) = Some s).
Proof.
  intros HL w Hw. unfold get_build_list_with, bind, gets.
  destruct (_build_list (this w)) as [s|] eqn:Hl; simpl.
  - split; [done |]. intros ? [= <-]. done.
  - unfold modify. specialize (HL _ (I_empty _ _ Hw)).
    destruct (L _) as [[e|[]] w1]; simpl in *; [by split |].
    unfold the_build_list, bind, gets.
    destruct (_build_list (this w1)) as [s|] eqn:Hl1; simpl; [|by split].
    split; [done |]. by intros ? [= <-].
Qed.

Lemma stable_get_build_list_with L pins :
  stable (I pins) L → stable (I pins) (get_build_list_with L).
Proof.
  intros HL. eapply triple_conseq; [by apply get_build_list_with_spec | done |].
  by intros r w [? _].
Qed.

Lemma stable_add_build_with L pins b :
  stable (I pins) L → b ∈ pins → stable (I pins) (add_build_with L b).
Proof.
  intros HL Hb. unfold add_build_with.
  eapply triple_bind; [by apply get_build_list_with_spec | by intros e w [? _] |].
  intros s w [Hw Hs]. apply I_add; auto.
Qed.

Lemma stable_load_with L :
  (∀ pins, stable (I pins) L) → ∀ pins, stable (I pins) (load_with L).
Proof.
  intros HL pins. unfold load_with.
  apply stable_bind; [apply stable_gets |]. intros d.
  apply stable_bind; [apply stable_os_path_exists |]. intros ex.
  destruct ex; simpl; [|apply stable_ret].
  apply stable_bind; [apply stable_os_listdir |]. intros pfs.
  apply stable_for_each. intros pf _.
  apply stable_bind; [apply stable_os_listdir |]. intros vfs.
  apply stable_for_each. intros vf _.
  apply stable_bind; [apply stable_gets |]. intros root.
  eapply triple_bind; [apply BuildInfo_init_pins | |].
  - intros e w (b & ? & _). done.
  - intros b. eapply triple_conseq.
    + apply (stable_add_build_with L (b :: pins) b); [apply HL | by left].
    + intros w (b' & [= <-] & Hw). exact Hw.
    + intros r w Hw. exact (I_weaken _ _ _ Hw).
Qed.

Lemma stable_load pins : stable (I pins) load.
Proof.
  apply stable_load_with. intros pins'. apply stable_load_with.
  intros pins''. apply stable_ret.
Qed.

Lemma stable_get_build_list pins : stable (I pins) get_build_list.
Proof. apply stable_get_build_list_with, stable_load. Qed.

Lemma stable_add_build pins b : b ∈ pins → stable (I pins) (add_build b).
Proof. apply stable_add_build_with, stable_load. Qed.

Lemma stable_get_build pins p v : stable (I pins) (get_build p v).
Proof.
  apply stable_bind; [apply stable_get_build_list |]. intros s. apply stable_ret.
Qed.

Lemma stable_get_or_create_build pins p v : stable (I pins) (get_or_create_build p v).
Proof.
  apply stable_bind; [apply stable_get_build |]. intros [b|]; [apply stable_ret |].
  apply stable_bind; [apply stable_gets |]. intros root.
  apply stable_bind; [apply stable_lift |]. intros pl.
  eapply triple_bind; [apply BuildInfo_init_pins | |].
  - intros e w (b & ? & _). done.
  - intros b. eapply triple_conseq.
    + apply (stable_bind (I (b :: pins))).
      * apply stable_add_build_with; [apply stable_load | by left].
      * intros _. apply stable_ret.
    + intros w (b' & [= <-] & Hw). exact Hw.
    + intros r w Hw. exact (I_weaken _ _ _ Hw).
Qed.

Lemma stable_rebuild pins : stable (I pins) rebuild.
Proof. apply stable_modify, I_unload. Qed.

Lemma stable_clean pins : stable (I pins) clean.
Proof.
  unfold clean.
  apply stable_bind; [apply stable_gets |]. intros d.
  apply stable_bind; [apply stable_os_path_exists |]. intros ex.
  destruct ex; [|apply stable_ret].
  apply stable_bind; [apply stable_get_build_list |]. intros builds.
  apply stable_bind.
  { apply stable_comprehension. intros b.
    apply stable_bind; [apply stable_BuildInfo_call |]. intros e. apply stable_ret. }
  intros lines.
  apply stable_bind; [apply stable_modify; intros w; apply I_stdout |]. intros _.
  intros w Hw. unfold bind. by rewrite lookup_build_dir.
Qed.
End Stability.

(** ** The set of records holds each constructed object at most once *)

Lemma allocated_grow b b' w : allocated b w → allocated b (set_heap (heap w ++ [b']) w).
Proof. unfold allocated. simpl. apply lookup_app_l_Some. Qed.

Lemma set_add_member b s : b ∈ s → set_add b s = s.
Proof.
  intros Hb. unfold set_add.
  assert (existsb (λ x, Nat.eqb (oid x) (oid b)) s = true) as ->; [|done].
  apply existsb_exists. exists b. split; [by apply list_elem_of_In | apply Nat.eqb_refl].
Qed.

Lemma set_add_new b s : oid b ∉ map oid s → set_add b s = (s ++ [b])%list.
Proof.
  intros Hb. unfold set_add.
  destruct (existsb _ s) eqn:E; [|done].
  apply existsb_exists in E as (x & Hx & Hox). apply Nat.eqb_eq in Hox.
  destruct Hb. rewrite <- Hox. apply list_elem_of_In, in_map, Hx.
Qed.

Lemma set_add_NoDup b s : NoDup (map oid s) → NoDup (map oid (set_add b s)).
Proof.
  intros Hs. unfold set_add. destruct (existsb _ s) eqn:E; [done |].
  rewrite map_app. simpl. apply NoDup_app. split; [done |]. split.
  - intros o Ho ->%list_elem_of_singleton.
    apply list_elem_of_In, in_map_iff in Ho as (x & Hox & Hx).
    assert (existsb (λ x, Nat.eqb (oid x) (oid b)) s = true) as E'; [|congruence].
    apply existsb_exists. exists x. split; [done | by apply Nat.eqb_eq].
  - apply NoDup_singleton.
Qed.

Lemma set_add_elem b x s : x ∈ set_add b s → x ∈ s ∨ x = b.
Proof.
  unfold set_add. destruct (existsb _ s); [by left |].
  intros [?|?%list_elem_of_singleton]%elem_of_app; auto.
Qed.

Lemma Inv_weaken b pins w : Inv (b :: pins) w → Inv pins w.
Proof. intros [Hp Hs]. split; [|done]. intros x Hx. apply Hp. by right. Qed.

Lemma Inv_alloc b pins w :
  Inv pins w → oid b = length (heap w) → Inv (b :: pins) (set_heap (heap w ++ [b]) w).
Proof.
  intros [Hp Hs] Hb. split.
  - intros x [->|Hx]%elem_of_cons.
    + unfold allocated. simpl. rewrite Hb. by apply list_lookup_middle.
    + by apply allocated_grow, Hp.
  - simpl. destruct (_build_list (this w)) as [s|]; [|done].
    destruct Hs as [Hn Ha]. split; [done |]. intros x Hx. by apply allocated_grow, Ha.
Qed.

Lemma Inv_stdout o pins w : Inv pins w → Inv pins (set_stdout o w).
Proof. done. Qed.

Lemma Inv_disk d pins w : Inv pins w → Inv pins (set_disk d w).
Proof. done. Qed.

Lemma Inv_unload pins w : Inv pins w → Inv pins (set_build_list None w).
Proof. by intros [Hp _]. Qed.

Lemma Inv_empty pins w : Inv pins w → Inv pins (set_build_list (Some []) w).
Proof.
  intros [Hp _]. split; [done |]. simpl. split; [constructor |].
  intros b Hb. by apply elem_of_nil in Hb.
Qed.

Lemma Inv_add b s pins w :
  Inv pins w → b ∈ pins → _build_list (this w) = Some s →
  Inv pins (set_build_list (Some (set_add b s)) w).
Proof.
  intros [Hp Hs] Hb Hl. rewrite Hl in Hs. destruct Hs as [Hn Ha].
  split; [done |]. simpl. split; [by apply set_add_NoDup |].
  intros x [Hx| ->]%set_add_elem; [by apply Ha | by apply Hp].
Qed.

Lemma Inv_pin b pins w : Inv pins w → allocated b w → Inv (b :: pins) w.
Proof.
  intros [Hp Hs] Hb. split; [|done]. intros x [->|Hx]%elem_of_cons; auto.
Qed.

Lemma Inv_fresh d root : Inv [] (fresh_world d root).
Proof. split; [|done]. intros b Hb. by apply elem_of_nil in Hb. Qed.

Lemma step_Inv w w' : step w w' → Inv [] w → Inv [] w'.
Proof.
  intros Hstep Hw. destruct Hstep.
  - by apply (stable_load Inv Inv_weaken Inv_alloc Inv_empty Inv_add []).
  - by apply (stable_get_build_list Inv Inv_weaken Inv_alloc Inv_empty Inv_add []).
  - by apply (stable_get_build Inv Inv_weaken Inv_alloc Inv_empty Inv_add []).
  - by apply (stable_get_or_create_build Inv Inv_weaken Inv_alloc Inv_empty Inv_add []).
  - by apply (stable_BuildInfo_init Inv Inv_weaken Inv_alloc []).
  - apply (Inv_weaken b).
    apply (stable_add_build Inv Inv_weaken Inv_alloc Inv_empty Inv_add [b] b);
      [by left | by apply Inv_pin].
  - by apply (stable_rebuild Inv Inv_unload []).
  - by apply (stable_clean Inv Inv_weaken Inv_alloc Inv_stdout Inv_empty Inv_add []).
  - by apply Inv_disk.
Qed.

Lemma reachable_Inv w w' : rtc step w w' → Inv [] w → Inv [] w'.
Proof. induction 1 as [|w1 w2 w3 Hs _ IH]; [done |]. intros Hw. by apply IH, (step_Inv w1). Qed.

Lemma reachable_invariant w : reachable w → Inv [] w.
Proof. intros (d & root & H). eapply reachable_Inv; [exact H | apply Inv_fresh]. Qed.

(** [load] keeps a set a set, so the [return self._build_list] of
    [get_build_list] never returns [None]. *)
Lemma load_keeps_loaded : stable loaded load.
Proof.
  apply (stable_load (λ _, loaded)) with (pins := []); try done.
  - intros _ w _. by eexists.
  - intros b s' pins w _ _ _. by eexists.
Qed.

Lemma get_build_list_leaves_loaded w : loaded (get_build_list w).2.
Proof.
  unfold get_build_list, get_build_list_with. rewrite bind_run.
  unfold gets at 1. cbv beta iota.
  destruct (_build_list (this w)) as [s|] eqn:Hl; [by exists s |].
  rewrite bind_run. unfold modify at 1. cbv beta iota. rewrite bind_run.
  pose proof (load_keeps_loaded (set_build_list (Some []) w)) as H.
  destruct (load _) as [[e|[]] w1]; simpl in *; [apply H; by eexists |].
  assert (loaded w1) as [s1 Hs1] by (apply H; by eexists).
  unfold the_build_list. rewrite bind_run. unfold gets. cbv beta iota.
  rewrite Hs1. by exists s1.
Qed.

(** On a loaded registry [add_build] is a plain [set.add]. *)
Lemma add_build_loaded b s w :
  _build_list (this w) = Some s →
  add_build b w = (inr tt, set_build_list (Some (set_add b s)) w).
Proof.
  intros Hl. unfold add_build, add_build_with, get_build_list_with, bind, gets.
  by rewrite Hl.
Qed.

Lemma Inv_oid_member b s w :
  Inv [] w → _build_list (this w) = Some s → allocated b w →
  oid b ∈ map oid s → b ∈ s.
Proof.
  intros [_ Hs] Hl Hb Ho. rewrite Hl in Hs. destruct Hs as [_ Ha].
  apply list_elem_of_In, in_map_iff in Ho as (x & Hox & Hx%list_elem_of_In).
  specialize (Ha x Hx). unfold allocated in *. rewrite Hox in Ha.
  by assert (x = b) as -> by congruence.
Qed.

(** ** What [load] computes on a disk it can scan *)

Lemma mk_records_app d root o ps qs :
  mk_records d root o (ps ++ qs)
  = (mk_records d root o ps ++ mk_records d root (o + length ps) qs)%list.
Proof.
  revert o. induction ps as [|[p v] ps IH]; intros o; simpl.
  - by rewrite Nat.add_0_r.
  - rewrite IH. do 3 f_equal. lia.
Qed.

Lemma mk_records_length d root o ps : length (mk_records d root o ps) = length ps.
Proof. revert o. induction ps as [|[p v] ps IH]; intros o; simpl; [done | by rewrite IH]. Qed.

Lemma mk_records_identity d root o ps : map identity (mk_records d root o ps) = ps.
Proof.
  revert o. induction ps as [|[p v] ps IH]; intros o; simpl; [done |].
  by rewrite constructed_identity, IH.
Qed.

Lemma mk_records_oid d root o ps : map oid (mk_records d root o ps) = seq o (length ps).
Proof.
  revert o. induction ps as [|[p v] ps IH]; intros o; simpl; [done |].
  by rewrite constructed_oid, IH.
Qed.

Lemma add_build_with_loaded X b s w :
  _build_list (this w) = Some s →
  add_build_with X b w = (inr tt, set_build_list (Some (set_add b s)) w).
Proof.
  intros Hl. unfold add_build_with, get_build_list_with, bind, gets. by rewrite Hl.
Qed.

Lemma world_extend w s b bs :
  set_build_list (Some ((s ++ [b]) ++ bs))
    (set_heap ((heap w ++ [b]) ++ bs)
       (set_build_list (Some (s ++ [b])) (set_heap (heap w ++ [b]) w)))
  = set_build_list (Some (s ++ b :: bs)) (set_heap (heap w ++ b :: bs) w).
Proof. unfold set_build_list, set_heap. simpl. by rewrite <- !app_assoc. Qed.

Lemma world_same w s :
  _build_list (this w) = Some s →
  set_build_list (Some (s ++ [])) (set_heap (heap w ++ []) w) = w.
Proof.
  destruct w as [d h o c [r l]]. simpl. intros ->.
  unfold set_build_list, set_heap. simpl. by rewrite !app_nil_r.
Qed.

(** The loop over the version folders of one platform folder. *)
Lemma load_versions X pf vs : ∀ w s,
  _build_list (this w) = Some s →
  (∀ b, b ∈ s → oid b < length (heap w)) →
  let bs := mk_records (disk w) (build_dir (this w)) (length (heap w)) (map (pair pf) vs) in
  for_each vs (λ version_folder,
    root ← path;
    b ← BuildInfo_init root pf version_folder;
    add_build_with X b) w
  = (inr tt, set_build_list (Some (s ++ bs)) (set_heap (heap w ++ bs) w)).
Proof.
  induction vs as [|v vs IH]; intros w s Hl Hb; simpl.
  - unfold ret. by rewrite world_same.
  - unfold bind at 1. unfold bind at 1. unfold path, gets.
    unfold bind at 1. rewrite BuildInfo_init_eq. simpl.
    set (b := constructed _ _ _ _ _).
    erewrite add_build_with_loaded by done.
    rewrite set_add_new.
    2:{ intros Ho. apply list_elem_of_In, in_map_iff in Ho as (x & Hox & Hx%list_elem_of_In).
        apply Hb in Hx. unfold b in Hox. rewrite constructed_oid in Hox. lia. }
    rewrite (IH _ (s ++ [b])%list); [| done |].
    + simpl. rewrite length_app. simpl. rewrite Nat.add_1_r.
      by rewrite world_extend.
    + simpl. intros x [Hx| ->%list_elem_of_singleton]%elem_of_app; rewrite length_app; simpl.
      * apply Hb in Hx. lia.
      * unfold b. rewrite constructed_oid. lia.
Qed.

Lemma os_listdir_dir p w :
  is_dirb (disk w) p = true → os_listdir p w = (inr (listing (disk w) p), w).
Proof.
  unfold is_dirb, os_listdir, listing. by destruct (disk w !! p) as [[|names]|].
Qed.

Lemma world_extend_app w s (bs cs : list BuildInfo) :
  set_build_list (Some ((s ++ bs) ++ cs))
    (set_heap ((heap w ++ bs) ++ cs)
       (set_build_list (Some (s ++ bs)) (set_heap (heap w ++ bs) w)))
  = set_build_list (Some (s ++ bs ++ cs)) (set_heap (heap w ++ bs ++ cs) w).
Proof. unfold set_build_list, set_heap. simpl. by rewrite <- !app_assoc. Qed.

(** The loop over the platform folders. *)
Lemma load_platforms X base ps : ∀ w s,
  base = build_dir (this w) →
  _build_list (this w) = Some s →
  (∀ b, b ∈ s → oid b < length (heap w)) →
  forallb (λ p, is_dirb (disk w) (os_path_join base [p])) ps = true →
  let pairs :=
    flat_map (λ p, map (pair p) (listing (disk w) (os_path_join base [p]))) ps in
  let bs := mk_records (disk w) base (length (heap w)) pairs in
  for_each ps (λ platform_folder,
    let path_ := os_path_join base [platform_folder] in
    version_folders ← os_listdir path_;
    for_each version_folders (λ version_folder,
      root ← path;
      b ← BuildInfo_init root platform_folder version_folder;
      add_build_with X b)) w
  = (inr tt, set_build_list (Some (s ++ bs)) (set_heap (heap w ++ bs) w)).
Proof.
  induction ps as [|p ps IH]; intros w s Hbase Hl Hb Hdirs; simpl.
  - unfold ret. by rewrite world_same.
  - simpl in Hdirs. apply andb_true_iff in Hdirs as [Hp Hps]. subst base.
    unfold bind at 1. unfold bind at 1. rewrite os_listdir_dir by done.
    rewrite (load_versions X p _ w s Hl Hb). simpl.
    set (A := map (pair p) _).
    set (bs := mk_records _ _ _ A).
    assert (length bs = length A) as Hlen by apply mk_records_length.
    rewrite (IH _ (s ++ bs)); simpl; [| done | done | | done].
    + rewrite mk_records_app. fold bs. rewrite length_app, Hlen.
      by rewrite world_extend_app.
    + intros x [Hx|Hx]%elem_of_app; rewrite length_app.
      * apply Hb in Hx. lia.
      * apply list_elem_of_In, (in_map oid) in Hx. unfold bs in Hx.
        rewrite mk_records_oid in Hx. apply in_seq in Hx. lia.
Qed.

Lemma scannable_root d root :
  scannable d root = true →
  is_dirb d root = true ∧
  forallb (λ p, is_dirb d (os_path_join root [p])) (listing d root) = true.
Proof. intros H. by apply andb_true_iff in H. Qed.

Lemma is_dirb_exists d p : is_dirb d p = true → is_Some (d !! p).
Proof. unfold is_dirb. destruct (d !! p); [eauto | done]. Qed.

(** On a registry whose set exists, [load] adds one new record per
    name pair of the disk, in the order of the listing. *)
Lemma load_with_loaded X w s :
  scannable (disk w) (build_dir (this w)) = true →
  _build_list (this w) = Some s →
  (∀ b, b ∈ s → oid b < length (heap w)) →
  let bs := mk_records (disk w) (build_dir (this w)) (length (heap w))
                       (disk_pairs (disk w) (build_dir (this w))) in
  load_with X w = (inr tt, set_build_list (Some (s ++ bs)) (set_heap (heap w ++ bs) w)).
Proof.
  intros [Hroot Hdirs]%scannable_root Hl Hb. simpl.
  unfold load_with. unfold bind at 1. unfold gets at 1.
  unfold bind at 1. unfold os_path_exists, gets.
  destruct (is_dirb_exists _ _ Hroot) as [n ->]. simpl.
  unfold bind at 1. rewrite os_listdir_dir by done.
  cbv beta iota zeta.
  exact (load_platforms X _ _ w s eq_refl Hl Hb Hdirs).
Qed.

(** The first read of an unloaded registry scans the disk. *)
Lemma get_build_list_unloaded w :
  scannable (disk w) (build_dir (this w)) = true →
  _build_list (this w) = None →
  let bs := mk_records (disk w) (build_dir (this w)) (length (heap w))
                       (disk_pairs (disk w) (build_dir (this w))) in
  get_build_list w = (inr bs, set_build_list (Some bs) (set_heap (heap w ++ bs) w)).
Proof.
  intros Hscan Hl. simpl.
  unfold get_build_list, get_build_list_with, bind, gets. rewrite Hl.
  unfold modify. unfold load.
  rewrite (load_with_loaded _ _ []); [| done | done |].
  - by unfold the_build_list, bind, gets.
  - intros b Hb. by apply elem_of_nil in Hb.
Qed.

(** A loaded registry answers from memory. *)
Lemma get_build_list_loaded w s :
  _build_list (this w) = Some s → get_build_list w = (inr s, w).
Proof.
  intros Hl. unfold get_build_list, get_build_list_with, bind, gets. by rewrite Hl.
Qed.

(** ** The recursion between [load], [add_build] and [get_build_list] *)

Lemma for_each_ext {A} (xs : list A) (f g : A → M unit) :
  (∀ x w, f x w = g x w) → ∀ w, for_each xs f w = for_each xs g w.
Proof.
  intros Hfg. induction xs as [|x xs IH]; intros w; simpl; [done |].
  unfold bind. rewrite Hfg. by destruct (g x w) as [[e|[]] w'].
Qed.

Lemma for_each_agree {A} (P : World → Prop) (xs : list A) (f g : A → M unit) :
  (∀ x w, P w → f x w = g x w) → (∀ x, stable P (f x)) →
  ∀ w, P w → for_each xs f w = for_each xs g w.
Proof.
  intros Hfg Hst. induction xs as [|x xs IH]; intros w Hw; simpl; [done |].
  unfold bind. rewrite <- Hfg by done. specialize (Hst x w Hw).
  destruct (f x w) as [[e|[]] w']; [done |]. by apply IH.
Qed.

(** One round of the inner loop on a loaded registry. *)
Lemma load_version_loaded X pf vf w s :
  _build_list (this w) = Some s →
  let b := constructed (disk w) (length (heap w)) (build_dir (this w)) pf vf in
  (root ← path; b ← BuildInfo_init root pf vf; add_build_with X b) w
  = (inr tt, set_build_list (Some (set_add b s)) (set_heap (heap w ++ [b]) w)).
Proof.
  intros Hl. simpl. unfold bind at 1. unfold path, gets. unfold bind at 1.
  rewrite BuildInfo_init_eq. simpl. by erewrite add_build_with_loaded.
Qed.

Lemma load_version_stable X pf vf :
  stable loaded (root ← path; b ← BuildInfo_init root pf vf; add_build_with X b).
Proof.
  intros w [s Hl]. rewrite (load_version_loaded X pf vf w s Hl). simpl.
  by eexists.
Qed.

Lemma os_listdir_same p w r w' : os_listdir p w = (r, w') → w' = w.
Proof. unfold os_listdir. destruct (disk w !! p) as [[|?]|]; congruence. Qed.

(** [load] up to its first loop. *)
Lemma load_with_eq X w :
  load_with X w =
  match disk w !! build_dir (this w) with
  | None => (inr tt, w)
  | Some _ =>
      (platform_folders ← os_listdir (build_dir (this w));
       for_each platform_folders (λ platform_folder,
         let path_ := os_path_join (build_dir (this w)) [platform_folder] in
         version_folders ← os_listdir path_;
         for_each version_folders (λ version_folder,
           root ← path;
           b ← BuildInfo_init root platform_folder version_folder;
           add_build_with X b))) w
  end.
Proof.
  unfold load_with. rewrite bind_run. unfold gets at 1. cbv beta iota.
  rewrite bind_run. unfold os_path_exists, gets. cbv beta iota.
  by destruct (disk w !! build_dir (this w)).
Qed.

(** Once [_build_list] is a set, [load] never reaches the [load] that
    [get_build_list] would start. *)
Lemma load_with_loaded_indep X Y w : loaded w → load_with X w = load_with Y w.
Proof.
  intros Hw. rewrite !load_with_eq. destruct (disk w !! _); [|done].
  rewrite !bind_run. destruct (os_listdir _ w) as [[e|pfs] w1] eqn:E; [done |].
  apply os_listdir_same in E as ->.
  apply (for_each_agree loaded); [| | done].
  - intros pf w' Hw'. cbv zeta. rewrite !bind_run.
    destruct (os_listdir _ w') as [[e|vfs] w2] eqn:E'; [done |].
    apply os_listdir_same in E' as ->.
    apply (for_each_agree loaded); [| | done].
    + intros vf w'' [s Hs].
      by rewrite (load_version_loaded X pf vf w'' s), (load_version_loaded Y pf vf w'' s).
    + intros vf. apply load_version_stable.
  - intros pf. apply stable_bind; [apply stable_os_listdir |]. intros vfs.
    apply stable_for_each. intros vf _. apply load_version_stable.
Qed.

Lemma add_build_with_agree X Y b :
  (∀ w, loaded w → X w = Y w) → ∀ w, add_build_with X b w = add_build_with Y b w.
Proof.
  intros HXY w. unfold add_build_with, get_build_list_with.
  rewrite !bind_run. unfold gets. destruct (_build_list (this w)); [done |].
  rewrite !bind_run. unfold modify. rewrite !bind_run.
  rewrite HXY; [done | by eexists].
Qed.

Lemma load_with_agree X Y :
  (∀ w, loaded w → X w = Y w) → ∀ w, load_with X w = load_with Y w.
Proof.
  intros HXY w. rewrite !load_with_eq. destruct (disk w !! _); [|done].
  rewrite !bind_run. destruct (os_listdir _ w) as [[e|pfs] w1]; [done |].
  apply for_each_ext. intros pf w'. cbv zeta. rewrite !bind_run.
  destruct (os_listdir _ w') as [[e|vfs] w2]; [done |].
  apply for_each_ext. intros vf w''.
  rewrite !bind_run. unfold path, gets. rewrite !bind_run.
  destruct (BuildInfo_init _ _ _ w'') as [[e|b] w3]; [done |].
  by apply add_build_with_agree.
Qed.

(** [load] satisfies the equation the source defines it by: its
    [add_build] calls go through [get_build_list], which calls [load]. *)
Lemma load_unfold w : load w = load_with load w.
Proof.
  unfold load at 1. apply load_with_agree. intros w' Hw'.
  unfold load. by apply load_with_loaded_indep.
Qed.

(** ** Lookup by (platform, version) *)

Lemma find_PlatformInfo p v (s : list BuildInfo) :
  List.find (λ build, str_eq (platform build) (VPlatformInfo p)
                      && String.eqb (version build) v) s = None.
Proof. by induction s. Qed.

Lemma find_absent p v (s : list BuildInfo) :
  (p, v) ∉ map identity s →
  List.find (λ build, str_eq (platform build) (VStr p)
                      && String.eqb (version build) v) s = None.
Proof.
  induction s as [|b s IH]; intros Hn; simpl; [done |].
  destruct (String.eqb_spec (platform b) p) as [<-|Hp]; simpl.
  - destruct (String.eqb_spec (version b) v) as [<-|Hv].
    + destruct Hn. by left.
    + apply IH. intros H. apply Hn. by right.
  - apply IH. intros H. apply Hn. by right.
Qed.

Lemma find_present p v (s : list BuildInfo) :
  (p, v) ∈ map identity s →
  ∃ b, List.find (λ build, str_eq (platform build) (VStr p)
                           && String.eqb (version build) v) s = Some b
       ∧ b ∈ s ∧ identity b = (p, v).
Proof.
  induction s as [|b s IH]; intros Hin; simpl in *.
  - by apply elem_of_nil in Hin.
  - destruct (String.eqb_spec (platform b) p) as [<-|Hp]; simpl.
    + destruct (String.eqb_spec (version b) v) as [<-|Hv].
      * exists b. split; [done |]. split; [by left | done].
      * apply elem_of_cons in Hin as [Heq|Hin]; [unfold identity in Heq; congruence |].
        destruct (IH Hin) as (b' & ? & ? & ?). exists b'. split; [done |]. split; [by right | done].
    + apply elem_of_cons in Hin as [Heq|Hin]; [unfold identity in Heq; congruence |].
      destruct (IH Hin) as (b' & ? & ? & ?). exists b'. split; [done |]. split; [by right | done].
Qed.

Lemma get_build_loaded p v w s :
  _build_list (this w) = Some s →
  get_build p v w
  = (inr (List.find (λ build, str_eq (platform build) p
                              && String.eqb (version build) v) s), w).
Proof.
  intros Hl. unfold get_build. rewrite bind_run. by rewrite (get_build_list_loaded w s).
Qed.

Lemma Inv_oid_bound w s b :
  Inv [] w → _build_list (this w) = Some s → b ∈ s → oid b < length (heap w).
Proof.
  intros [_ Hs] Hl Hb. rewrite Hl in Hs. destruct Hs as [_ Ha].
  apply Ha in Hb. by apply lookup_lt_Some in Hb.
Qed.

(** ** get_or_create_build *)

(** With a [PlatformInfo] argument, as [build_target] and [fetch_build]
    pass it, the lookup compares the platform string of each record
    with the object and finds nothing: every call constructs and adds
    a record. *)
Lemma get_or_create_build_PlatformInfo p v w s :
  reachable w → _build_list (this w) = Some s →
  let b := constructed (disk w) (length (heap w)) (build_dir (this w)) (pi_platform p) v in
  get_or_create_build (VPlatformInfo p) v w
  = (inr b, set_build_list (Some (s ++ [b])) (set_heap (heap w ++ [b]) w)).
Proof.
  intros HI%reachable_invariant Hl. simpl. unfold get_or_create_build.
  rewrite bind_run, (get_build_loaded _ _ w s Hl), find_PlatformInfo.
  rewrite bind_run. unfold path, gets. rewrite bind_run. unfold lift, getattr_platform.
  rewrite bind_run, BuildInfo_init_eq. cbv beta iota zeta.
  rewrite bind_run, (add_build_loaded _ s) by done.
  rewrite set_add_new; [done |].
  intros Ho. apply list_elem_of_In, in_map_iff in Ho as (x & Hox & Hx%list_elem_of_In).
  apply (Inv_oid_bound w s x HI Hl) in Hx. rewrite constructed_oid in Hox. lia.
Qed.

(** With a string argument the lookup can succeed, and the method then
    returns the record found; when it does not, [platform.platform]
    raises. *)
Lemma get_or_create_build_str_found p v w s b :
  _build_list (this w) = Some s →
  List.find (λ build, str_eq (platform build) (VStr p)
                      && String.eqb (version build) v) s = Some b →
  get_or_create_build (VStr p) v w = (inr b, w).
Proof.
  intros Hl Hf. unfold get_or_create_build.
  by rewrite bind_run, (get_build_loaded _ _ w s Hl), Hf.
Qed.

Lemma get_or_create_build_str_absent p v w s :
  _build_list (this w) = Some s →
  (p, v) ∉ map identity s →
  get_or_create_build (VStr p) v w = (inl (AttributeError "str" "platform"), w).
Proof.
  intros Hl Hn. unfold get_or_create_build.
  by rewrite bind_run, (get_build_loaded _ _ w s Hl), find_absent.
Qed.

(** C1 (the code departs from the claim).  On a registry rooted at a
    directory that does not exist, two calls of [get_or_create_build]
    with the same [PlatformInfo('mac')] and the same version return two
    different objects, both with identity [(mac, v1)], and the set then
    holds two records with that identity. *)
Theorem get_or_create_build_twice_duplicates :
  PlatformInfo_new "mac" = inr mac ∧
  (b1 ← get_or_create_build (VPlatformInfo mac) "v1";
   b2 ← get_or_create_build (VPlatformInfo mac) "v1";
   builds ← get_build_list;
   ret (oid b1, oid b2, identity b1, identity b2,
        length (with_identity "mac" "v1" builds))) (fresh_world ∅ "Builds")
  = (inr (0, 1, ("mac", "v1"), ("mac", "v1"), 2),
     set_build_list
       (Some [constructed ∅ 0 "Builds" "mac" "v1"; constructed ∅ 1 "Builds" "mac" "v1"])
       (set_heap [constructed ∅ 0 "Builds" "mac" "v1"; constructed ∅ 1 "Builds" "mac" "v1"]
          (fresh_world ∅ "Builds"))).
Proof. split; vm_compute; reflexivity. Qed.

(** ** BuildInfo: [exists], paths and metadata attributes *)

(** C7 (the code departs from the claim).  [BuildInfo] defines no
    [exists]: on every record, in every state, the call
    [build_info.exists()] that [clean] makes raises [AttributeError]
    and leaves the state as it was. *)
Theorem BuildInfo_exists_raises (b : BuildInfo) (w : World) :
  BuildInfo_call b "exists" w = (inl (AttributeError "BuildInfo" "exists"), w).
Proof. reflexivity. Qed.

(** The construction of a record never fails. *)
Lemma BuildInfo_init_total root p v w : ∃ b w', BuildInfo_init root p v w = (inr b, w').
Proof. rewrite BuildInfo_init_eq. eauto. Qed.

Lemma constructed_paths d o root p v :
  build_path (constructed d o root p v) = os_path_join root [p; v] ∧
  build_info_path (constructed d o root p v)
  = os_path_join (build_path (constructed d o root p v)) ["build_info.yaml"].
Proof. unfold constructed. by case_match. Qed.

(** C4, as amended: for every record constructed with
    [(rootDirectory, platform, version)], in every state, [build_path]
    is [os.path.join(rootDirectory, platform, version)] and
    [build_info_path] is [build_path] joined with the file name
    [build_info.yaml]. *)
Theorem BuildInfo_paths (root p v : string) (w : World) :
  ∃ b w', BuildInfo_init root p v w = (inr b, w') ∧
    build_path b = os_path_join root [p; v] ∧
    build_info_path b = os_path_join (build_path b) ["build_info.yaml"].
Proof.
  rewrite BuildInfo_init_eq. eexists _, _. split; [done |]. apply constructed_paths.
Qed.

(** C4 as stated fails: the metadata path of
    [BuildInfo('Builds', 'mac', 'v1')] is not the build path joined
    with [build_info]. *)
Lemma BuildInfo_sidecar_name_counterexample :
  ∃ b w', BuildInfo_init "Builds" "mac" "v1" (fresh_world ∅ "Builds") = (inr b, w') ∧
    build_path b = "Builds/mac/v1" ∧
    build_info_path b = "Builds/mac/v1/build_info.yaml" ∧
    build_info_path b ≠ os_path_join (build_path b) ["build_info"].
Proof. eexists _, _. split; [vm_compute; reflexivity |]. by vm_compute. Qed.

(** Where the root is not empty and does not end with the separator
    and the platform and the version are plain, the joined paths are
    the components written with [/] between them. *)
Lemma join_step_plain a b :
  a ≠ "" → endswith_char a "/" = false → startswith b sep = false →
  join_step a b = (a ++ "/" ++ b)%string.
Proof.
  intros Ha He Hs. unfold join_step. rewrite Hs, He.
  by destruct a.
Qed.

Lemma append_cons x (a b : string) : (String x a ++ b)%string = String x (a ++ b)%string.
Proof. reflexivity. Qed.

Lemma append_assoc (a b c : string) : ((a ++ b) ++ c)%string = (a ++ (b ++ c))%string.
Proof. induction a as [|x a IH]; [done |]. by rewrite !append_cons, IH. Qed.

Lemma append_nonempty (a b : string) : b ≠ "" → (a ++ b)%string ≠ "".
Proof. intros Hb. destruct a; [done | discriminate]. Qed.

Lemma endswith_char_append (a b : string) c :
  b ≠ "" → endswith_char (a ++ b)%string c = endswith_char b c.
Proof.
  intros Hb. induction a as [|x a IH]; [done |].
  rewrite append_cons. pose proof (append_nonempty a b Hb).
  simpl. by destruct (a ++ b)%string.
Qed.

Lemma constructed_paths_plain d o root p v :
  root ≠ "" → endswith_char root "/" = false → plain p → plain v →
  build_path (constructed d o root p v) = (root ++ "/" ++ p ++ "/" ++ v)%string ∧
  build_info_path (constructed d o root p v)
  = (root ++ "/" ++ p ++ "/" ++ v ++ "/build_info.yaml")%string.
Proof.
  intros Hr Hre (Hp & Hps & Hpe) (Hv & Hvs & Hve).
  destruct (constructed_paths d o root p v) as [-> ->].
  assert (os_path_join root [p; v] = (root ++ "/" ++ p ++ "/" ++ v)%string) as ->.
  { unfold os_path_join. simpl.
    rewrite (join_step_plain root p) by done.
    rewrite join_step_plain; [| by apply append_nonempty, append_nonempty | | done].
    - by rewrite !append_assoc.
    - rewrite endswith_char_append by (by apply append_nonempty).
      by rewrite endswith_char_append. }
  split; [done |]. unfold os_path_join. simpl.
  rewrite join_step_plain; [| by do 3 apply append_nonempty | | done].
  - by rewrite !append_assoc.
  - rewrite endswith_char_append by (by do 2 apply append_nonempty).
    rewrite endswith_char_append by (by apply append_nonempty).
    rewrite endswith_char_append by (by apply append_nonempty).
    by rewrite endswith_char_append.
Qed.

(** The six metadata attributes after construction: without a sidecar
    file all six are [None]. *)
Lemma constructed_no_sidecar d o root p v :
  d !! os_path_join (os_path_join root [p; v]) ["build_info.yaml"] = None →
  let b := constructed d o root p v in
  status b = Some VNone ∧ app_path b = Some VNone ∧ exec_path b = Some VNone ∧
  zip_path b = Some VNone ∧ branch b = Some VNone ∧ commit b = Some VNone.
Proof. intros H. unfold constructed. by rewrite H. Qed.

(** With a sidecar file, [read] runs and assigns nothing: none of the
    six attributes is bound, and reading any of them raises. *)
Lemma constructed_sidecar d o root p v :
  is_Some (d !! os_path_join (os_path_join root [p; v]) ["build_info.yaml"]) →
  let b := constructed d o root p v in
  (status b = None ∧ app_path b = None ∧ exec_path b = None ∧
   zip_path b = None ∧ branch b = None ∧ commit b = None) ∧
  Forall (λ name, BuildInfo_getattr b name = inl (AttributeError "BuildInfo" name))
         ["status"; "app_path"; "exec_path"; "zip_path"; "branch"; "commit"].
Proof.
  intros [n H]. unfold constructed. rewrite H. split; [done |].
  repeat constructor.
Qed.

(** C8 (the code departs from the claim).  [Builds/windows/v1.0/] holds
    a [build_info.yaml]: the record constructed for it has none of the
    six attributes, and [status] cannot be read; the record of
    [Builds/mac/v1.0/], which has no sidecar, has all six set to
    [None]. *)
Theorem BuildInfo_sidecar_leaves_attributes_unset :
  (b ← BuildInfo_init "Builds" "windows" "v1.0";
   ret ([status b; app_path b; exec_path b; zip_path b; branch b; commit b],
        BuildInfo_getattr b "status")) (fresh_world disk_two "Builds")
  = (inr ([None; None; None; None; None; None],
          inl (AttributeError "BuildInfo" "status")),
     set_heap [constructed disk_two 0 "Builds" "windows" "v1.0"]
              (fresh_world disk_two "Builds"))
  ∧
  (b ← BuildInfo_init "Builds" "mac" "v1.0";
   ret ([status b; app_path b; exec_path b; zip_path b; branch b; commit b],
        BuildInfo_getattr b "status")) (fresh_world disk_two "Builds")
  = (inr ([Some VNone; Some VNone; Some VNone; Some VNone; Some VNone; Some VNone],
          inr VNone),
     set_heap [constructed disk_two 0 "Builds" "mac" "v1.0"]
              (fresh_world disk_two "Builds")).
Proof. split; vm_compute; reflexivity. Qed.

(** ** PlatformInfo *)

Lemma lower_idem s : lower (lower s) = lower s.
Proof.
  induction s as [|c s IH]; simpl; [done |]. rewrite IH. f_equal.
  destruct c as [[] [] [] [] [] [] [] []]; reflexivity.
Qed.

(** What [__init__] accepts: the platform, lower-cased and resolved
    through the aliases, is one of [ALL_PLATFORMS], and the
    architecture occurs in the string [x86_64]. *)
Lemma PlatformInfo_init_ok platform arch r :
  PlatformInfo_init platform arch = inr r ↔
  let pa := match PLATFORM_ALIASES !! lower platform with
            | Some pa => pa
            | None => (lower platform, lower arch)
            end in
  tuple_in pa.1 ALL_PLATFORMS = true ∧ str_in pa.2 "x86_64" = true ∧
  r = mkPlatformInfo pa.1 pa.2.
Proof.
  unfold PlatformInfo_init. rewrite !lower_idem. cbv zeta.
  destruct (match PLATFORM_ALIASES !! lower platform with
            | Some pa => pa | None => _ end) as [p a].
  cbn [fst snd].
  destruct (tuple_in p ALL_PLATFORMS); cbn [negb]; [|split; [done | by intros [? _]]].
  destruct (str_in a "x86_64"); cbn [negb]; [|split; [done | by intros (_ & ? & _)]].
  split; [by intros [= <-] | by intros (_ & _ & ->)].
Qed.

(** C5 (the code departs from the claim).  [PlatformInfo('win32')] is
    resolved to the architecture [x86] and accepted, and so are the
    architectures [x86], [64] and the empty string given directly:
    the test is a substring test against [x86_64].  An architecture
    that does not occur in [x86_64] is rejected. *)
Theorem PlatformInfo_accepts_other_architectures :
  PlatformInfo_new "win32" = inr (mkPlatformInfo "windows" "x86") ∧
  PlatformInfo_init "mac" "x86" = inr (mkPlatformInfo "mac" "x86") ∧
  PlatformInfo_init "linux" "64" = inr (mkPlatformInfo "linux" "64") ∧
  PlatformInfo_init "linux" "" = inr (mkPlatformInfo "linux" "") ∧
  PlatformInfo_init "linux" "arm64"
  = inl (Exception "invalid architecture (expected x86_64) 'linux'").
Proof. repeat split; vm_compute; reflexivity. Qed.

(** ** clean and load on a missing or present root *)

Lemma load_missing_root w : disk w !! build_dir (this w) = None → load w = (inr tt, w).
Proof. intros H. unfold load. by rewrite load_with_eq, H. Qed.

Lemma clean_missing_root w : disk w !! build_dir (this w) = None → clean w = (inr tt, w).
Proof.
  intros H. unfold clean. rewrite bind_run. unfold gets at 1. cbv beta iota.
  rewrite bind_run. unfold os_path_exists, gets. by rewrite H.
Qed.

(** With the root on disk, [clean] ends in one of three exceptions and
    never reaches [shutil.rmtree]. *)
Lemma clean_present_root w :
  is_Some (disk w !! build_dir (this w)) →
  clean w =
  match get_build_list w with
  | (inl e, w1) => (inl e, w1)
  | (inr [], w1) =>
      (inl (NameError "build_dir"),
       set_stdout (stdout w1 ++ ["removing 0 local build(s):"]) w1)
  | (inr (b :: _), w1) => (inl (AttributeError "BuildInfo" "exists"), w1)
  end.
Proof.
  intros [n H]. unfold clean. rewrite bind_run. unfold gets at 1. cbv beta iota.
  rewrite bind_run. unfold os_path_exists, gets. rewrite H. cbv beta iota.
  rewrite bind_run. by destruct (get_build_list w) as [[e|[|b bs]] w1].
Qed.

Lemma clean_present_root_raises w :
  is_Some (disk w !! build_dir (this w)) → ∃ e, (clean w).1 = inl e.
Proof.
  intros H. rewrite (clean_present_root w H).
  destruct (get_build_list w) as [[e|[|b bs]] w1]; eauto.
Qed.

(** No call of [clean] changes the disk. *)
Lemma clean_keeps_disk w : disk (clean w).2 = disk w.
Proof. by apply (stable_clean (λ _ w', disk w' = disk w)) with (pins := []). Qed.

(** C2 (the code departs from the claim).  On a root that exists and
    holds two builds, [clean] raises [AttributeError] while it builds
    its report, whether the two records were loaded before the call or
    are loaded by it: nothing is printed, the root is still on disk and
    the two records are still in the set.  On a root that exists and is
    empty, the report is printed and [shutil.rmtree(build_dir)] raises
    [NameError]; the root is still on disk. *)
Theorem clean_raises_and_deletes_nothing :
  clean (fresh_world disk_two "Builds")
  = (inl (AttributeError "BuildInfo" "exists"),
     let bs := mk_records disk_two "Builds" 0 [("mac", "v1.0"); ("windows", "v1.0")] in
     set_build_list (Some bs) (set_heap bs (fresh_world disk_two "Builds")))
  ∧
  clean (get_build_list (fresh_world disk_two "Builds")).2
  = (inl (AttributeError "BuildInfo" "exists"),
     (get_build_list (fresh_world disk_two "Builds")).2)
  ∧
  clean (fresh_world {["Builds" := Dir []]} "Builds")
  = (inl (NameError "build_dir"),
     set_build_list (Some [])
       (set_stdout ["removing 0 local build(s):"]
          (fresh_world {["Builds" := Dir []]} "Builds"))).
Proof. repeat split; vm_compute; reflexivity. Qed.

(** C6, as amended: when the root directory does not exist, [load]
    returns without raising and leaves the registry as it was, records
    included; [clean] does the same; and [get_build_list], which sets
    the records to the empty set before it calls [load], takes an
    unloaded registry to the loaded-but-empty state and returns the
    empty set. *)
Theorem missing_root_is_not_an_error (w : World) :
  disk w !! build_dir (this w) = None →
  load w = (inr tt, w) ∧
  clean w = (inr tt, w) ∧
  (_build_list (this w) = None →
   get_build_list w = (inr [], set_build_list (Some []) w)).
Proof.
  intros H. split; [by apply load_missing_root |]. split; [by apply clean_missing_root |].
  intros Hl. unfold get_build_list, get_build_list_with.
  rewrite bind_run. unfold gets at 1. rewrite Hl. cbv beta iota.
  rewrite bind_run. unfold modify at 1. cbv beta iota.
  rewrite bind_run, load_missing_root by done. reflexivity.
Qed.

Lemma missing_root_is_not_an_error_witness :
  disk (fresh_world ∅ "Builds") !! build_dir (this (fresh_world ∅ "Builds")) = None ∧
  load (fresh_world ∅ "Builds") = (inr tt, fresh_world ∅ "Builds") ∧
  clean (fresh_world ∅ "Builds") = (inr tt, fresh_world ∅ "Builds") ∧
  (_build_list (this (fresh_world ∅ "Builds")) = None →
   get_build_list (fresh_world ∅ "Builds")
   = (inr [], set_build_list (Some []) (fresh_world ∅ "Builds"))).
Proof.
  split; [reflexivity |].
  apply (missing_root_is_not_an_error (fresh_world ∅ "Builds")). reflexivity.
Defined.

(** C6 as stated fails: [load] on a new registry whose root does not
    exist leaves [_build_list] unloaded, not empty. *)
Lemma load_missing_root_counterexample :
  disk (fresh_world ∅ "Builds") !! build_dir (this (fresh_world ∅ "Builds")) = None ∧
  load (fresh_world ∅ "Builds") = (inr tt, fresh_world ∅ "Builds") ∧
  _build_list (this (load (fresh_world ∅ "Builds")).2) = None ∧
  _build_list (this (load (fresh_world ∅ "Builds")).2) ≠ Some [].
Proof. repeat split; try (vm_compute; reflexivity). by vm_compute. Qed.

(** ** add_build and the identity of records *)

Lemma set_build_list_same w s : _build_list (this w) = Some s → set_build_list (Some s) w = w.
Proof. destruct w as [d h o c [r l]]. simpl. by intros ->. Qed.

Lemma NoDup_identity_clash (s : list BuildInfo) b :
  identity b ∈ map identity s → ¬ NoDup (map identity (s ++ [b])).
Proof.
  intros Hin Hn. rewrite map_app in Hn. apply NoDup_app in Hn as (_ & Hdis & _).
  apply (Hdis _ Hin). simpl. by left.
Qed.

(** C3, as amended: in every state that a process reaches from the
    creation of its registry by any sequence of registry calls ([load],
    [add_build], [get_or_create_build] and the others) and changes of
    the disk, no record object occurs twice in the set, and [add_build]
    on a loaded registry is never an error and deduplicates by object
    identity only: adding an object that is in the set leaves the set
    as it is, adding an object that is not in the set adds it, also
    when a member of the set has the same (platform, version), and the
    two then coexist. *)
Theorem add_build_dedups_by_object (w : World) (s : list BuildInfo) (b : BuildInfo) :
  reachable w →
  _build_list (this w) = Some s → allocated b w →
  NoDup (map oid s) ∧
  (b ∈ s → add_build b w = (inr tt, w)) ∧
  (b ∉ s → add_build b w = (inr tt, set_build_list (Some (s ++ [b])) w)) ∧
  (b ∉ s → identity b ∈ map identity s → ¬ identity_invariant (add_build b w).2).
Proof.
  intros HI%reachable_invariant Hl Hb.
  assert (b ∉ s → add_build b w = (inr tt, set_build_list (Some (s ++ [b])) w)) as Hnew.
  { intros Hn. rewrite (add_build_loaded b s w Hl), set_add_new; [done |].
    intros Ho. apply Hn. by eapply Inv_oid_member. }
  split; [|split; [|split]].
  - destruct HI as [_ HI]. rewrite Hl in HI. apply HI.
  - intros Hin. by rewrite (add_build_loaded b s w Hl), set_add_member, set_build_list_same.
  - exact Hnew.
  - intros Hn Hid Hinv. rewrite (Hnew Hn) in Hinv.
    by apply (NoDup_identity_clash s b Hid), Hinv.
Qed.

(** C3 as stated fails: two records constructed for [(mac, v1)] and
    added with [add_build] are both members of the set. *)
Lemma add_build_identity_counterexample :
  let run :=
    (b1 ← BuildInfo_init "Builds" "mac" "v1";
     b2 ← BuildInfo_init "Builds" "mac" "v1";
     add_build b1;;
     add_build b2;;
     builds ← get_build_list;
     ret (map oid builds, map identity builds)) (fresh_world ∅ "Builds") in
  run.1 = inr ([0; 1], [("mac", "v1"); ("mac", "v1")]) ∧
  ¬ identity_invariant run.2.
Proof.
  split; [vm_compute; reflexivity |].
  intros H. specialize (H _ eq_refl). vm_compute in H.
  apply NoDup_cons in H as [H _]. apply H. by left.
Qed.

Lemma add_build_dedups_by_object_witness :
  let w0 := fresh_world ∅ "Builds" in
  let b1 := constructed ∅ 0 "Builds" "mac" "v1" in
  let b2 := constructed ∅ 1 "Builds" "mac" "v1" in
  let w1 := (BuildInfo_init "Builds" "mac" "v1" w0).2 in
  let w2 := (BuildInfo_init "Builds" "mac" "v1" w1).2 in
  let w := (add_build b1 w2).2 in
  (reachable w ∧ _build_list (this w) = Some [b1] ∧ allocated b2 w) ∧
  NoDup (map oid [b1]) ∧
  (b2 ∈ [b1] → add_build b2 w = (inr tt, w)) ∧
  (b2 ∉ [b1] → add_build b2 w = (inr tt, set_build_list (Some ([b1] ++ [b2])) w)) ∧
  (b2 ∉ [b1] → identity b2 ∈ map identity [b1] → ¬ identity_invariant (add_build b2 w).2).
Proof.
  cbv zeta.
  assert (reachable
            (add_build (constructed ∅ 0 "Builds" "mac" "v1")
               (BuildInfo_init "Builds" "mac" "v1"
                  (BuildInfo_init "Builds" "mac" "v1" (fresh_world ∅ "Builds")).2).2).2)
    as Hreach.
  { exists ∅, "Builds".
    eapply rtc_l; [apply (step_BuildInfo _ "Builds" "mac" "v1") |].
    eapply rtc_l; [apply (step_BuildInfo _ "Builds" "mac" "v1") |].
    eapply rtc_l;
      [apply (step_add_build _ (constructed ∅ 0 "Builds" "mac" "v1")); reflexivity |].
    apply rtc_refl. }
  split.
  - split; [exact Hreach |]. split; reflexivity.
  - apply add_build_dedups_by_object; [exact Hreach | reflexivity | reflexivity].
Defined.

(** ** rebuild and the scan of the disk *)

Lemma disk_pairs_elem d root p v :
  (p, v) ∈ disk_pairs d root ↔
  p ∈ listing d root ∧ v ∈ listing d (os_path_join root [p]).
Proof.
  unfold disk_pairs. rewrite list_elem_of_In, in_flat_map. split.
  - intros (q & Hq & Hin). apply in_map_iff in Hin as (x & [= <- <-] & Hx).
    by rewrite !list_elem_of_In.
  - intros [Hp Hv]. exists p. split; [by apply list_elem_of_In |].
    apply in_map, list_elem_of_In, Hv.
Qed.

(** C9.  Let a first load have filled the records, and let the disk
    since then have gained a version folder [v] under a platform folder
    [p] that no record stands for.  Before [rebuild], reads answer from
    memory whatever the disk holds: [get_build_list] returns the old
    records and [get_build] finds nothing for [(p, v)].  [rebuild]
    resets [_build_list] to unloaded, and the first [get_build_list]
    after it scans the whole disk: its records are the name pairs of
    the disk, [(p, v)] among them, and [get_build] finds the record. *)
Theorem rebuild_forces_rescan (w1 : World) (d2 : gmap string node)
    (s : list BuildInfo) (p v : string) :
  let w := set_disk d2 w1 in
  _build_list (this w1) = Some s →
  (p, v) ∉ map identity s →
  scannable d2 (build_dir (this w1)) = true →
  (p, v) ∈ disk_pairs d2 (build_dir (this w1)) →
  (get_build_list w = (inr s, w) ∧ get_build (VStr p) v w = (inr None, w)) ∧
  (rebuild w = (inr tt, set_build_list None w)) ∧
  ∃ s' w' b,
    get_build_list (rebuild w).2 = (inr s', w') ∧
    _build_list (this w') = Some s' ∧
    map identity s' = disk_pairs d2 (build_dir (this w1)) ∧
    get_build (VStr p) v (rebuild w).2 = (inr (Some b), w') ∧
    b ∈ s' ∧ identity b = (p, v).
Proof.
  intros w Hl Hn Hscan Hin.
  assert (_build_list (this w) = Some s) as Hlw by done.
  split; [|split; [done |]].
  - split; [by apply get_build_list_loaded |].
    by rewrite (get_build_loaded _ _ w s Hlw), find_absent.
  - pose proof (get_build_list_unloaded (rebuild w).2 Hscan eq_refl) as Hg.
    cbv zeta in Hg.
    set (s' := mk_records _ _ _ _) in Hg.
    assert (map identity s' = disk_pairs d2 (build_dir (this w1))) as Hid
      by apply mk_records_identity.
    rewrite <- Hid in Hin. destruct (find_present p v s' Hin) as (b & Hf & Hb & Hib).
    eexists s', _, b. split; [exact Hg |]. split; [done |]. split; [done |].
    split; [|done]. unfold get_build. rewrite bind_run, Hg. cbv beta iota.
    unfold ret. by rewrite Hf.
Qed.

Lemma rebuild_forces_rescan_witness :
  let w1 := (get_build_list (fresh_world disk_two "Builds")).2 in
  let s := mk_records disk_two "Builds" 0 [("mac", "v1.0"); ("windows", "v1.0")] in
  let w := set_disk disk_later w1 in
  (_build_list (this w1) = Some s ∧
   (("mac", "v1.1") ∉ map identity s) ∧
   scannable disk_later (build_dir (this w1)) = true ∧
   ("mac", "v1.1") ∈ disk_pairs disk_later (build_dir (this w1))) ∧
  (get_build_list w = (inr s, w) ∧ get_build (VStr "mac") "v1.1" w = (inr None, w)) ∧
  (rebuild w = (inr tt, set_build_list None w)) ∧
  ∃ s' w' b,
    get_build_list (rebuild w).2 = (inr s', w') ∧
    _build_list (this w') = Some s' ∧
    map identity s' = disk_pairs disk_later (build_dir (this w1)) ∧
    get_build (VStr "mac") "v1.1" (rebuild w).2 = (inr (Some b), w') ∧
    b ∈ s' ∧ identity b = ("mac", "v1.1").
Proof.
  cbv zeta.
  assert (("mac", "v1.1") ∉
          map identity (mk_records disk_two "Builds" 0
                          [("mac", "v1.0"); ("windows", "v1.0")])) as Hn.
  { vm_compute. intros H. repeat (apply elem_of_cons in H as [H|H]; [discriminate |]).
    by apply elem_of_nil in H. }
  assert (("mac", "v1.1") ∈
          disk_pairs disk_later
            (build_dir (this (get_build_list (fresh_world disk_two "Builds")).2))) as Hin.
  { vm_compute. right. by left. }
  split.
  - split; [reflexivity |]. split; [exact Hn |]. split; [reflexivity | exact Hin].
  - apply (rebuild_forces_rescan (get_build_list (fresh_world disk_two "Builds")).2
             disk_later _ "mac" "v1.1"); [reflexivity | exact Hn | reflexivity | exact Hin].
Defined.

(** ** load validates nothing *)

(** C10.  On a root whose two levels can be listed, [load] adds one
    record for every (first-level entry, second-level entry) name pair
    of the disk and for nothing else, in the order of the listings, and
    takes the first-level name as the platform as it is: no name is
    compared with [ALL_PLATFORMS].  So does the load that the first
    [get_build_list] of an unloaded registry performs. *)
Theorem load_does_not_validate (w : World) (s : list BuildInfo) :
  reachable w →
  scannable (disk w) (build_dir (this w)) = true →
  let pairs := disk_pairs (disk w) (build_dir (this w)) in
  (_build_list (this w) = Some s →
   ∃ new w', load w = (inr tt, w') ∧ _build_list (this w') = Some (s ++ new) ∧
     map identity new = pairs ∧
     ∀ p v, p ∈ listing (disk w) (build_dir (this w)) →
            v ∈ listing (disk w) (os_path_join (build_dir (this w)) [p]) →
            ∃ b, b ∈ new ∧ platform b = p ∧ version b = v) ∧
  (_build_list (this w) = None →
   ∃ new w', get_build_list w = (inr new, w') ∧ _build_list (this w') = Some new ∧
     map identity new = pairs ∧
     ∀ p v, p ∈ listing (disk w) (build_dir (this w)) →
            v ∈ listing (disk w) (os_path_join (build_dir (this w)) [p]) →
            ∃ b, b ∈ new ∧ platform b = p ∧ version b = v).
Proof.
  intros HI%reachable_invariant Hscan pairs.
  set (new := mk_records (disk w) (build_dir (this w)) (length (heap w)) pairs).
  assert (map identity new = pairs) as Hid by apply mk_records_identity.
  assert (∀ p v, p ∈ listing (disk w) (build_dir (this w)) →
                 v ∈ listing (disk w) (os_path_join (build_dir (this w)) [p]) →
                 ∃ b, b ∈ new ∧ platform b = p ∧ version b = v) as Hall.
  { intros p v Hp Hv.
    assert ((p, v) ∈ map identity new) as Hin by (rewrite Hid; by apply disk_pairs_elem).
    apply list_elem_of_In, in_map_iff in Hin as (b & Hb & Hin).
    exists b. split; [by apply list_elem_of_In |]. unfold identity in Hb. by simplify_eq. }
  split; intros Hl.
  - exists new, (set_build_list (Some (s ++ new)) (set_heap (heap w ++ new) w)).
    split; [|done]. unfold load. apply load_with_loaded; [done | done |].
    intros b Hb. by eapply Inv_oid_bound.
  - exists new, (set_build_list (Some new) (set_heap (heap w ++ new) w)).
    split; [|done]. by apply get_build_list_unloaded.
Qed.

Lemma load_does_not_validate_witness :
  let w := set_disk disk_notes (get_build_list (fresh_world ∅ "Builds")).2 in
  (reachable w ∧ scannable (disk w) (build_dir (this w)) = true ∧
   tuple_in "notes" ALL_PLATFORMS = false) ∧
  (_build_list (this w) = Some [] →
   ∃ new w', load w = (inr tt, w') ∧ _build_list (this w') = Some ([] ++ new) ∧
     map identity new = [("notes", "old")] ∧
     ∀ p v, p ∈ listing (disk w) (build_dir (this w)) →
            v ∈ listing (disk w) (os_path_join (build_dir (this w)) [p]) →
            ∃ b, b ∈ new ∧ platform b = p ∧ version b = v).
Proof.
  cbv zeta.
  assert (reachable (set_disk disk_notes (get_build_list (fresh_world ∅ "Builds")).2))
    as Hreach.
  { exists ∅, "Builds".
    eapply rtc_l; [apply step_get_build_list |].
    eapply rtc_l; [apply (step_disk _ disk_notes) |].
    apply rtc_refl. }
  split.
  - split; [exact Hreach |]. split; reflexivity.
  - exact (proj1 (load_does_not_validate
                    (set_disk disk_notes (get_build_list (fresh_world ∅ "Builds")).2) []
                    Hreach eq_refl)).
Defined.

(** * Further properties of the code *)

(** ** PlatformInfo: what the constructor returns *)

Lemma alias_values k pa :
  PLATFORM_ALIASES !! k = Some pa →
  pa = ("mac", "x86_64") ∨ pa = ("windows", "x86_64") ∨ pa = ("windows", "x86").
Proof.
  intros H. unfold PLATFORM_ALIASES in H. apply elem_of_list_to_map_2 in H.
  repeat (apply elem_of_cons in H as [H|H]; [simplify_eq; auto |]).
  by apply elem_of_nil in H.
Qed.

Lemma tuple_in_ALL_PLATFORMS p :
  tuple_in p ALL_PLATFORMS = true → p = "mac" ∨ p = "windows" ∨ p = "linux".
Proof.
  unfold tuple_in, ALL_PLATFORMS. simpl. rewrite !orb_true_iff.
  intros [H|[H|[H|H]]]; try discriminate; apply String.eqb_eq in H; auto.
Qed.

(** The platform and the architecture that pass the two tests. *)
Lemma PlatformInfo_init_shape platform arch r :
  PlatformInfo_init platform arch = inr r →
  (pi_platform r = "mac" ∨ pi_platform r = "windows" ∨ pi_platform r = "linux") ∧
  str_in (pi_arch r) "x86_64" = true ∧
  lower (pi_arch r) = pi_arch r.
Proof.
  intros (Hp & Ha & ->)%PlatformInfo_init_ok. cbn [pi_platform pi_arch].
  split; [by apply tuple_in_ALL_PLATFORMS |]. split; [done |].
  destruct (PLATFORM_ALIASES !! lower platform) as [pa|] eqn:E.
  - by destruct (alias_values _ _ E) as [-> | [-> | ->]].
  - apply lower_idem.
Qed.

(** A platform of [ALL_PLATFORMS] with a lower-case architecture that
    occurs in [x86_64] is accepted as it is. *)
Lemma PlatformInfo_init_fixed p a :
  p = "mac" ∨ p = "windows" ∨ p = "linux" →
  str_in a "x86_64" = true → lower a = a →
  PlatformInfo_init p a = inr (mkPlatformInfo p a).
Proof.
  intros Hp Ha Hl. apply PlatformInfo_init_ok.
  assert (lower p = p ∧ PLATFORM_ALIASES !! p = None) as [-> ->]
    by (destruct Hp as [-> | [-> | ->]]; split; vm_compute; reflexivity).
  cbn [fst snd]. rewrite Hl. split; [|done].
  by destruct Hp as [-> | [-> | ->]].
Qed.

(** X1.  Whatever strings the constructor is given, a [PlatformInfo]
    that it returns has one of the three platforms of [ALL_PLATFORMS],
    and its architecture is lower-case and occurs in the string
    [x86_64]. *)
Theorem PlatformInfo_init_result (platform arch : string) (r : PlatformInfo) :
  PlatformInfo_init platform arch = inr r →
  tuple_in (pi_platform r) ALL_PLATFORMS = true ∧
  lower (pi_platform r) = pi_platform r ∧
  str_in (pi_arch r) "x86_64" = true ∧
  lower (pi_arch r) = pi_arch r.
Proof.
  intros (Hp & Ha & Hl)%PlatformInfo_init_shape.
  split; [by destruct Hp as [-> | [-> | ->]] |].
  split; [by destruct Hp as [-> | [-> | ->]] | done].
Qed.

Lemma PlatformInfo_init_result_witness :
  PlatformInfo_init "Win32" "PPC" = inr (mkPlatformInfo "windows" "x86") ∧
  tuple_in "windows" ALL_PLATFORMS = true ∧
  lower "windows" = "windows" ∧
  str_in "x86" "x86_64" = true ∧
  lower "x86" = "x86".
Proof.
  split; [vm_compute; reflexivity |].
  apply (PlatformInfo_init_result "Win32" "PPC" (mkPlatformInfo "windows" "x86")).
  vm_compute. reflexivity.
Defined.

(** X2.  Constructing a [PlatformInfo] again from the platform and the
    architecture of one that was constructed gives the same value: the
    normalisation of the constructor is idempotent. *)
Theorem PlatformInfo_init_idempotent (platform arch : string) (r : PlatformInfo) :
  PlatformInfo_init platform arch = inr r →
  PlatformInfo_init (pi_platform r) (pi_arch r) = inr r.
Proof.
  intros (Hp & Ha & Hl)%PlatformInfo_init_shape.
  destruct r as [p a]. cbn [pi_platform pi_arch] in *.
  by apply PlatformInfo_init_fixed.
Qed.

Lemma PlatformInfo_init_idempotent_witness :
  PlatformInfo_init "MacOS" "whatever" = inr mac ∧
  PlatformInfo_init (pi_platform mac) (pi_arch mac) = inr mac.
Proof.
  split; [vm_compute; reflexivity |].
  apply (PlatformInfo_init_idempotent "MacOS" "whatever" mac). vm_compute. reflexivity.
Defined.

(** X3.  The constructor does not tell upper case from lower case: two
    platform strings, and two architecture strings, with the same
    lower-case form give the same outcome, value or exception. *)
Theorem PlatformInfo_init_case_insensitive (p p' a a' : string) :
  lower p = lower p' → lower a = lower a' →
  PlatformInfo_init p a = PlatformInfo_init p' a'.
Proof.
  intros Hp Ha. unfold PlatformInfo_init. by rewrite !lower_idem, Hp, Ha.
Qed.

Lemma PlatformInfo_init_case_insensitive_witness :
  (lower "LiNuX" = lower "linux" ∧ lower "X86_64" = lower "x86_64") ∧
  PlatformInfo_init "LiNuX" "X86_64" = PlatformInfo_init "linux" "x86_64".
Proof.
  split; [split; reflexivity |].
  apply PlatformInfo_init_case_insensitive; reflexivity.
Defined.

(** X4.  For a platform string that is an alias ([macos], [win],
    [win32], [win64], in any case), the construction succeeds whatever
    architecture is passed and the result is that of the alias table:
    the architecture argument is not looked at. *)
Theorem PlatformInfo_alias_decides (p a : string) (pa : string * string) :
  PLATFORM_ALIASES !! lower p = Some pa →
  PlatformInfo_init p a = inr (mkPlatformInfo pa.1 pa.2).
Proof.
  intros E. apply PlatformInfo_init_ok. rewrite E.
  by destruct (alias_values _ _ E) as [-> | [-> | ->]].
Qed.

Lemma PlatformInfo_alias_decides_witness :
  PLATFORM_ALIASES !! lower "WIN64" = Some ("windows", "x86_64") ∧
  PlatformInfo_init "WIN64" "sparc" = inr (mkPlatformInfo "windows" "x86_64").
Proof.
  split; [vm_compute; reflexivity |].
  apply (PlatformInfo_alias_decides "WIN64" "sparc" ("windows", "x86_64")).
  vm_compute. reflexivity.
Defined.


(** ** PlatformInfo.current *)

(** X6.  [PlatformInfo.current()] succeeds exactly when the lower-cased
    platform string contains [64] and one of [darwin], [windows],
    [linux]; the first of the three that occurs, in this order, decides
    the platform, and the architecture of the result is always
    [x86_64]: the construction at the end never fails. *)
Theorem PlatformInfo_current_ok (info : string) (r : PlatformInfo) :
  PlatformInfo_current info = inr r ↔
  str_in "64" (lower info) = true ∧
  ((str_in "darwin" (lower info) = true ∧ r = mkPlatformInfo "mac" "x86_64") ∨
   (str_in "darwin" (lower info) = false ∧ str_in "windows" (lower info) = true ∧
    r = mkPlatformInfo "windows" "x86_64") ∨
   (str_in "darwin" (lower info) = false ∧ str_in "windows" (lower info) = false ∧
    str_in "linux" (lower info) = true ∧ r = mkPlatformInfo "linux" "x86_64")).
Proof.
  assert (PlatformInfo_init "mac" "x86_64" = inr (mkPlatformInfo "mac" "x86_64")) as Hm
    by (vm_compute; reflexivity).
  assert (PlatformInfo_init "windows" "x86_64" = inr (mkPlatformInfo "windows" "x86_64"))
    as Hw by (vm_compute; reflexivity).
  assert (PlatformInfo_init "linux" "x86_64" = inr (mkPlatformInfo "linux" "x86_64")) as Hl
    by (vm_compute; reflexivity).
  unfold PlatformInfo_current. cbv zeta.
  destruct (str_in "darwin" (lower info)); [|destruct (str_in "windows" (lower info));
    [|destruct (str_in "linux" (lower info))]];
    destruct (str_in "64" (lower info)); rewrite ?Hm, ?Hw, ?Hl;
    intuition congruence.
Qed.

(** ** ask_user_if_build_ok *)

Lemma ask_loop_answer skipped line rest :
  Forall (λ x, decisive x = false) skipped → decisive line = true →
  ask_loop (skipped ++ line :: rest)
  = (inr (str_in "y" (lower line)), rest, retries skipped ++ [prompt]).
Proof.
  intros Hs Hl. induction Hs as [|x skipped Hx _ IH]; simpl.
  - unfold decisive in Hl. destruct (str_in "y" (lower line)); [done |].
    simpl in Hl. by rewrite Hl.
  - unfold decisive in Hx. apply orb_false_iff in Hx as [-> ->]. by rewrite IH.
Qed.

Lemma ask_loop_no_answer lines :
  Forall (λ x, decisive x = false) lines →
  ask_loop lines = (inl EOFError, [], retries lines ++ [prompt]).
Proof.
  intros Hs. induction Hs as [|x lines Hx _ IH]; simpl; [done |].
  unfold decisive in Hx. apply orb_false_iff in Hx as [-> ->]. by rewrite IH.
Qed.

(** X7.  [ask_user_if_build_ok] is decided by the first line of the
    input that contains [y] or [n] in either case: it returns when the
    line contains [y], also beside an [n], and exits otherwise.  The
    lines before it are read and each answered with [invalid response]
    and a new prompt; the lines after it are left unread. *)
Theorem ask_user_if_build_ok_answer (p : Process) (skipped : list string)
    (line : string) (rest : list string) :
  stdin p = skipped ++ line :: rest →
  Forall (λ x, decisive x = false) skipped → decisive line = true →
  ask_user_if_build_ok p
  = (if str_in "y" (lower line) then inr tt else inl SystemExit,
     mkProcess (set_stdout (stdout (world p) ++ retries skipped ++ [prompt]) (world p))
               (has_instance p) rest).
Proof.
  intros Hin Hs Hl. unfold ask_user_if_build_ok, pbind, ask_is_build_ok.
  rewrite Hin, (ask_loop_answer skipped line rest Hs Hl).
  by destruct (str_in "y" (lower line)).
Qed.

Lemma ask_user_if_build_ok_answer_witness :
  (stdin (boot ∅ ["hmm"; ""; "No way"; "n"]) = ["hmm"; ""] ++ "No way" :: ["n"] ∧
   Forall (λ x, decisive x = false) ["hmm"; ""] ∧ decisive "No way" = true) ∧
  ask_user_if_build_ok (boot ∅ ["hmm"; ""; "No way"; "n"])
  = (if str_in "y" (lower "No way") then inr tt else inl SystemExit,
     mkProcess (set_stdout (stdout (world (boot ∅ ["hmm"; ""; "No way"; "n"]))
                            ++ retries ["hmm"; ""] ++ [prompt])
                           (world (boot ∅ ["hmm"; ""; "No way"; "n"])))
               (has_instance (boot ∅ ["hmm"; ""; "No way"; "n"])) ["n"]).
Proof.
  assert (Forall (λ x, decisive x = false) ["hmm"; ""]) as Hs
    by (repeat constructor).
  split; [split; [reflexivity | split; [exact Hs | reflexivity]] |].
  apply ask_user_if_build_ok_answer; [reflexivity | exact Hs | reflexivity].
Defined.

(** X8.  When no line of the input contains [y] or [n],
    [ask_user_if_build_ok] reads all of it, answers every line with
    [invalid response] and ends in [EOFError] at the next prompt. *)
Theorem ask_user_if_build_ok_eof (p : Process) :
  Forall (λ x, decisive x = false) (stdin p) →
  ask_user_if_build_ok p
  = (inl EOFError,
     mkProcess (set_stdout (stdout (world p) ++ retries (stdin p) ++ [prompt]) (world p))
               (has_instance p) []).
Proof.
  intros Hs. unfold ask_user_if_build_ok, pbind, ask_is_build_ok.
  by rewrite (ask_loop_no_answer (stdin p) Hs).
Qed.

Lemma ask_user_if_build_ok_eof_witness :
  Forall (λ x, decisive x = false) (stdin (boot ∅ ["ok"; "sure"])) ∧
  ask_user_if_build_ok (boot ∅ ["ok"; "sure"])
  = (inl EOFError,
     mkProcess (set_stdout (stdout (world (boot ∅ ["ok"; "sure"]))
                            ++ retries (stdin (boot ∅ ["ok"; "sure"])) ++ [prompt])
                           (world (boot ∅ ["ok"; "sure"])))
               (has_instance (boot ∅ ["ok"; "sure"])) []).
Proof.
  assert (Forall (λ x, decisive x = false) (stdin (boot ∅ ["ok"; "sure"]))) as Hs
    by (repeat constructor).
  split; [exact Hs |]. by apply ask_user_if_build_ok_eof.
Defined.

(** ** The registry: lookup, creation, caching *)

(** X9.  On a loaded registry [get_build] with a platform string
    neither raises nor changes anything, and its answer is exact: a
    record it returns is a member of the set with the requested
    (platform, version), and it returns [None] only when no member has
    them. *)
Theorem get_build_exact (w : World) (s : list BuildInfo) (p v : string) :
  _build_list (this w) = Some s →
  ∃ r, get_build (VStr p) v w = (inr r, w) ∧
       match r with
       | Some b => b ∈ s ∧ identity b = (p, v)
       | None => (p, v) ∉ map identity s
       end.
Proof.
  intros Hl. rewrite (get_build_loaded _ _ w s Hl). eexists. split; [done |].
  destruct (List.find _ s) as [b|] eqn:Hf.
  - apply find_some in Hf as [Hin Hb]. apply andb_true_iff in Hb as [Hp Hv].
    apply String.eqb_eq in Hp, Hv. split; [by apply list_elem_of_In |].
    unfold identity. by rewrite Hp, Hv.
  - intros Hin. destruct (find_present p v s Hin) as (b & Hb & _). congruence.
Qed.

Lemma get_build_exact_witness :
  let w := (get_build_list (fresh_world disk_two "Builds")).2 in
  let s := mk_records disk_two "Builds" 0 [("mac", "v1.0"); ("windows", "v1.0")] in
  _build_list (this w) = Some s ∧
  ∃ r, get_build (VStr "windows") "v1.0" w = (inr r, w) ∧
       match r with
       | Some b => b ∈ s ∧ identity b = ("windows", "v1.0")
       | None => ("windows", "v1.0") ∉ map identity s
       end.
Proof.
  cbv zeta. split; [reflexivity |].
  apply (get_build_exact (get_build_list (fresh_world disk_two "Builds")).2). reflexivity.
Defined.

(** X10.  [get_build] with a [PlatformInfo], which is what [run_build]
    passes through [BuildInfo.get], never returns a record, in any
    state: the platform of a record is a string and equals no
    [PlatformInfo]. *)
Theorem get_build_PlatformInfo_finds_nothing (w : World) (t : PlatformInfo)
    (v : string) (b : BuildInfo) :
  (get_build (VPlatformInfo t) v w).1 ≠ inr (Some b).
Proof.
  unfold get_build. rewrite bind_run.
  destruct (get_build_list w) as [[e|s] w']; [done |].
  unfold ret. cbn [fst]. by rewrite find_PlatformInfo.
Qed.

Lemma get_or_create_build_PlatformInfo_Inv t v w s :
  Inv [] w → _build_list (this w) = Some s →
  let b := constructed (disk w) (length (heap w)) (build_dir (this w)) (pi_platform t) v in
  get_or_create_build (VPlatformInfo t) v w
  = (inr b, set_build_list (Some (s ++ [b])) (set_heap (heap w ++ [b]) w)).
Proof.
  intros HI Hl. simpl. unfold get_or_create_build.
  rewrite bind_run, (get_build_loaded _ _ w s Hl), find_PlatformInfo.
  rewrite bind_run. unfold path, gets. rewrite bind_run. unfold lift, getattr_platform.
  rewrite bind_run, BuildInfo_init_eq. cbv beta iota zeta.
  rewrite bind_run, (add_build_loaded _ s) by done.
  rewrite set_add_new; [done |].
  intros Ho. apply list_elem_of_In, in_map_iff in Ho as (x & Hox & Hx%list_elem_of_In).
  apply (Inv_oid_bound w s x HI Hl) in Hx. rewrite constructed_oid in Hox. lia.
Qed.

(** X11.  On a loaded registry, in any state a process can reach,
    [get_or_create_build] with a [PlatformInfo] always constructs a
    record: the record returned is not one of the members, it becomes
    the newest member, it carries the platform of the target and the
    version, and its path lies below the root of the registry. *)
Theorem get_or_create_build_always_creates (w : World) (s : list BuildInfo)
    (t : PlatformInfo) (v : string) :
  reachable w → _build_list (this w) = Some s →
  ∃ b w', get_or_create_build (VPlatformInfo t) v w = (inr b, w') ∧
    (b ∉ s) ∧
    _build_list (this w') = Some (s ++ [b]) ∧
    identity b = (pi_platform t, v) ∧
    build_path b = os_path_join (build_dir (this w)) [pi_platform t; v] ∧
    allocated b w'.
Proof.
  intros HI%reachable_invariant Hl.
  rewrite (get_or_create_build_PlatformInfo_Inv t v w s HI Hl). cbv zeta.
  set (b := constructed _ _ _ _ _). eexists b, _. split; [done |].
  split; [|split; [done |]; split; [apply constructed_identity |];
           split; [apply constructed_paths |]].
  - intros Hin. apply (Inv_oid_bound w s b HI Hl) in Hin.
    unfold b in Hin. rewrite constructed_oid in Hin. lia.
  - unfold allocated. simpl. unfold b at 1. rewrite constructed_oid.
    by apply list_lookup_middle.
Qed.

Lemma get_or_create_build_always_creates_witness :
  let w := (get_build_list (fresh_world disk_two "Builds")).2 in
  let s := mk_records disk_two "Builds" 0 [("mac", "v1.0"); ("windows", "v1.0")] in
  (reachable w ∧ _build_list (this w) = Some s) ∧
  ∃ b w', get_or_create_build (VPlatformInfo mac) "v1.0" w = (inr b, w') ∧
    (b ∉ s) ∧
    _build_list (this w') = Some (s ++ [b]) ∧
    identity b = (pi_platform mac, "v1.0") ∧
    build_path b = os_path_join (build_dir (this w)) [pi_platform mac; "v1.0"] ∧
    allocated b w'.
Proof.
  cbv zeta.
  assert (reachable (get_build_list (fresh_world disk_two "Builds")).2) as Hreach.
  { exists disk_two, "Builds". eapply rtc_l; [apply step_get_build_list | apply rtc_refl]. }
  split; [split; [exact Hreach | reflexivity] |].
  apply get_or_create_build_always_creates; [exact Hreach | reflexivity].
Defined.

(** X12.  On a loaded registry [get_or_create_build] with a platform
    string never creates a record and never changes the state: it
    returns a member with the requested (platform, version) when there
    is one, and raises [AttributeError] (a string has no attribute
    [platform]) when there is none. *)
Theorem get_or_create_build_str_never_creates (w : World) (s : list BuildInfo)
    (p v : string) :
  _build_list (this w) = Some s →
  (get_or_create_build (VStr p) v w).2 = w ∧
  match (get_or_create_build (VStr p) v w).1 with
  | inr b => b ∈ s ∧ identity b = (p, v)
  | inl e => e = AttributeError "str" "platform" ∧ (p, v) ∉ map identity s
  end.
Proof.
  intros Hl.
  destruct (List.find (λ build, str_eq (platform build) (VStr p)
                                && String.eqb (version build) v) s) as [b|] eqn:Hf.
  - rewrite (get_or_create_build_str_found p v w s b Hl Hf). split; [done |]. simpl.
    apply find_some in Hf as [Hin Hb]. apply andb_true_iff in Hb as [Hp Hv].
    apply String.eqb_eq in Hp, Hv. split; [by apply list_elem_of_In |].
    unfold identity. by rewrite Hp, Hv.
  - assert ((p, v) ∉ map identity s) as Hn.
    { intros Hin. destruct (find_present p v s Hin) as (b & Hb & _). congruence. }
    by rewrite (get_or_create_build_str_absent p v w s Hl Hn).
Qed.

Lemma get_or_create_build_str_never_creates_witness :
  let w := (get_build_list (fresh_world disk_two "Builds")).2 in
  let s := mk_records disk_two "Builds" 0 [("mac", "v1.0"); ("windows", "v1.0")] in
  _build_list (this w) = Some s ∧
  (get_or_create_build (VStr "linux") "v1.0" w).2 = w ∧
  match (get_or_create_build (VStr "linux") "v1.0" w).1 with
  | inr b => b ∈ s ∧ identity b = ("linux", "v1.0")
  | inl e => e = AttributeError "str" "platform" ∧ ("linux", "v1.0") ∉ map identity s
  end.
Proof.
  cbv zeta. split; [reflexivity |].
  apply (get_or_create_build_str_never_creates
           (get_build_list (fresh_world disk_two "Builds")).2). reflexivity.
Defined.

(** X13.  The records are cached: once [get_build_list] has returned,
    every later [get_build_list] returns the same records and changes
    nothing, whatever has become of the disk in between. *)
Theorem get_build_list_cached (w w' : World) (s : list BuildInfo) (d : gmap string node) :
  get_build_list w = (inr s, w') →
  get_build_list (set_disk d w') = (inr s, set_disk d w').
Proof.
  intros Hg. apply get_build_list_loaded.
  pose proof (get_build_list_with_spec (λ _ _, True) (λ _ _ _, I) load []
                (λ _ _, I) w I) as [_ Hs].
  unfold get_build_list in Hg. rewrite Hg in Hs. simpl in *. by apply Hs.
Qed.

Lemma get_build_list_cached_witness :
  let w := fresh_world disk_two "Builds" in
  let s := mk_records disk_two "Builds" 0 [("mac", "v1.0"); ("windows", "v1.0")] in
  let w' := set_build_list (Some s) (set_heap s w) in
  get_build_list w = (inr s, w') ∧
  get_build_list (set_disk ∅ w') = (inr s, set_disk ∅ w').
Proof.
  cbv zeta.
  assert (get_build_list (fresh_world disk_two "Builds")
          = (inr (mk_records disk_two "Builds" 0 [("mac", "v1.0"); ("windows", "v1.0")]),
             set_build_list
               (Some (mk_records disk_two "Builds" 0 [("mac", "v1.0"); ("windows", "v1.0")]))
               (set_heap (mk_records disk_two "Builds" 0
                            [("mac", "v1.0"); ("windows", "v1.0")])
                         (fresh_world disk_two "Builds")))) as Hg
    by (vm_compute; reflexivity).
  split; [exact Hg |]. exact (get_build_list_cached _ _ _ ∅ Hg).
Defined.

(** ** The registry and the disk *)

(** X14.  [clean] returns normally exactly when the root is not on
    disk, and then it has changed nothing at all; in every case the
    disk after [clean] is the disk before it. *)
Theorem clean_outcome (w : World) :
  disk (clean w).2 = disk w ∧
  ((clean w).1 = inr tt ↔ disk w !! build_dir (this w) = None) ∧
  (disk w !! build_dir (this w) = None → (clean w).2 = w).
Proof.
  split; [apply clean_keeps_disk |]. split; [split |].
  - intros Hok. destruct (disk w !! build_dir (this w)) as [n|] eqn:E; [|done].
    destruct (clean_present_root_raises w) as [e He]; [by eexists | congruence].
  - intros E. by rewrite clean_missing_root.
  - intros E. by rewrite clean_missing_root.
Qed.

Lemma frame_refl w pins : frame w pins w.
Proof. done. Qed.

(** X15.  No method of the registry and no construction of a record
    creates, changes or deletes anything on disk, and none changes the
    root of the registry: a record made by [get_or_create_build] or
    [add_build] exists in memory only.  This holds in every state and
    for every outcome, exceptions included. *)
Theorem registry_never_writes_disk (w : World) (p : pyval) (v root pl : string)
    (b : BuildInfo) :
  frame w [] (load w).2 ∧
  frame w [] (get_build_list w).2 ∧
  frame w [] (get_build p v w).2 ∧
  frame w [] (get_or_create_build p v w).2 ∧
  frame w [] (add_build b w).2 ∧
  frame w [] (rebuild w).2 ∧
  frame w [] (clean w).2 ∧
  frame w [] (BuildInfo_init root pl v w).2.
Proof.
  repeat split.
  all: first
    [ by apply (stable_load (frame w)) with (pins := [])
    | by apply (stable_get_build_list (frame w)) with (pins := [])
    | by apply (stable_get_build (frame w)) with (pins := [])
    | by apply (stable_get_or_create_build (frame w)) with (pins := [])
    | by apply (stable_add_build (frame w)) with (pins := [b]) (b := b);
        [.. | by left | done]
    | by apply (stable_rebuild (frame w)) with (pins := [])
    | by apply (stable_clean (frame w)) with (pins := [])
    | by apply (stable_BuildInfo_init (frame w)) with (pins := []) ].
Qed.

(** ** The paths of a record *)

(** X16.  For a root that is not empty and does not end with [/] and a
    platform and a version that are not empty and neither start nor end
    with [/], the build path of the record is the text
    [root/platform/version] and its metadata path is that text followed
    by [/build_info.yaml]. *)
Theorem BuildInfo_paths_as_text (w : World) (root p v : string) :
  root ≠ "" → endswith_char root "/" = false → plain p → plain v →
  ∃ b w', BuildInfo_init root p v w = (inr b, w') ∧
    build_path b = (root ++ "/" ++ p ++ "/" ++ v)%string ∧
    build_info_path b = (root ++ "/" ++ p ++ "/" ++ v ++ "/build_info.yaml")%string.
Proof.
  intros Hr He Hp Hv. rewrite BuildInfo_init_eq. eexists _, _. split; [done |].
  by apply constructed_paths_plain.
Qed.

Lemma BuildInfo_paths_as_text_witness :
  ("../Builds" ≠ "" ∧ endswith_char "../Builds" "/" = false ∧
   plain "linux" ∧ plain "v0.2.1") ∧
  ∃ b w', BuildInfo_init "../Builds" "linux" "v0.2.1" (fresh_world ∅ "../Builds")
          = (inr b, w') ∧
    build_path b = ("../Builds" ++ "/" ++ "linux" ++ "/" ++ "v0.2.1")%string ∧
    build_info_path b
    = ("../Builds" ++ "/" ++ "linux" ++ "/" ++ "v0.2.1" ++ "/build_info.yaml")%string.
Proof.
  assert (plain "linux" ∧ plain "v0.2.1") as [Hp Hv] by (by repeat split).
  split; [by repeat split |].
  by apply (BuildInfo_paths_as_text (fresh_world ∅ "../Builds") "../Builds" "linux" "v0.2.1").
Defined.

Lemma join_step_absolute a b : startswith b sep = true → join_step a b = b.
Proof. intros H. unfold join_step. by rewrite H. Qed.

(** X17.  A version that starts with [/] replaces the root and the
    platform in the path: the build path of the record is the version
    itself, for every root and platform, while the record keeps the
    platform it was given. *)
Theorem BuildInfo_absolute_version (w : World) (root p v : string) :
  startswith v sep = true →
  ∃ b w', BuildInfo_init root p v w = (inr b, w') ∧
    build_path b = v ∧ identity b = (p, v).
Proof.
  intros Hv. rewrite BuildInfo_init_eq. eexists _, _. split; [done |].
  split; [|apply constructed_identity].
  destruct (constructed_paths (disk w) (length (heap w)) root p v) as [-> _].
  unfold os_path_join. simpl. by apply join_step_absolute.
Qed.

Lemma BuildInfo_absolute_version_witness :
  startswith "/tmp/v1" sep = true ∧
  ∃ b w', BuildInfo_init "Builds" "mac" "/tmp/v1" (fresh_world ∅ "Builds") = (inr b, w') ∧
    build_path b = "/tmp/v1" ∧ identity b = ("mac", "/tmp/v1").
Proof.
  split; [reflexivity |].
  by apply (BuildInfo_absolute_version (fresh_world ∅ "Builds") "Builds" "mac" "/tmp/v1").
Defined.

(** ** The process: rules *)

Lemma pbind_run {A B} (m : P A) (k : A → P B) p :
  pbind m k p = match m p with
                | (inr a, p') => k a p'
                | (inl e, p') => (inl e, p')
                end.
Proof. reflexivity. Qed.

Lemma ptriple_bind {A B} (I : Process → Prop) (m : P A) (k : A → P B) Q
    (R : signal + B → Process → Prop) :
  ptriple I m Q →
  (∀ e p, Q (inl e) p → R (inl e) p) →
  (∀ a, ptriple (Q (inr a)) (k a) R) →
  ptriple I (pbind m k) R.
Proof.
  intros Hm He Hk p HI. specialize (Hm p HI). unfold pbind.
  destruct (m p) as [[e|a] p']; simpl in *; [by apply He | by apply Hk].
Qed.

Lemma pstable_bind {A B} (J : Process → Prop) (m : P A) (k : A → P B) :
  pstable J m → (∀ a, pstable J (k a)) → pstable J (pbind m k).
Proof.
  intros Hm Hk p HJ. specialize (Hm p HJ). unfold pbind.
  destruct (m p) as [[e|a] p']; simpl in *; [done | by apply Hk].
Qed.

Lemma pstable_ret {A} (J : Process → Prop) (a : A) : pstable J (pret a).
Proof. by intros p HJ. Qed.

Lemma pstable_raise {A} (J : Process → Prop) (e : signal) : pstable (A:=A) J (praise e).
Proof. by intros p HJ. Qed.

Lemma pstable_plift {A} (J : Process → Prop) (r : result A) : pstable J (plift r).
Proof. by intros p HJ. Qed.

Lemma pstable_for_each {A} (J : Process → Prop) (xs : list A) (body : A → P unit) :
  (∀ x, pstable J (body x)) → pstable J (pfor_each xs body).
Proof.
  intros Hb. induction xs as [|x xs IH]; simpl; [apply pstable_ret |].
  apply pstable_bind; [apply Hb | by intros _].
Qed.

(** A call of a method keeps what the method keeps in the state of the
    registry, when the rest of the process does not matter. *)
Lemma pstable_method {A} (K : World → Prop) (m : M A) :
  stable K m → pstable (λ p, K (world p)) (method m).
Proof.
  intros Hm p HK. specialize (Hm (world p) HK). unfold method.
  by destruct (m (world p)) as [[e|a] w'].
Qed.

Lemma method_run {A} (m : M A) p :
  method m p = (match (m (world p)).1 with
                | inl e => inl (Raised e)
                | inr a => inr a
                end, set_world (m (world p)).2 p).
Proof. unfold method. by destruct (m (world p)) as [[e|a] w']. Qed.

(** The flags decide the targets without a look at the state. *)
Lemma targets_run args cp p :
  (if arg_build_all args then plift (collect PlatformInfo_all)
   else match arg_build_target args with
        | Some t => pbind (plift (PlatformInfo_new t)) (λ x, pret [x])
        | None => if arg_build_current args then pret [cp] else pret []
        end) p
  = plift (targets_of args cp) p.
Proof.
  unfold targets_of. destruct (arg_build_all args); [done |].
  destruct (arg_build_target args) as [t|].
  - unfold pbind, plift, pret. by destruct (PlatformInfo_new t).
  - by destruct (arg_build_current args).
Qed.

Lemma collect_all :
  collect PlatformInfo_all
  = inr [mkPlatformInfo "mac" "x86_64"; mkPlatformInfo "windows" "x86_64";
         mkPlatformInfo "linux" "x86_64"].
Proof. vm_compute. reflexivity. Qed.

Lemma targets_nonempty args cp bt :
  arg_build_all args = true ∨ is_Some (arg_build_target args)
  ∨ arg_build_current args = true →
  targets_of args cp = inr bt → bt ≠ [].
Proof.
  unfold targets_of. intros Hflags.
  destruct (arg_build_all args); [rewrite collect_all; by intros [= <-] |].
  destruct (arg_build_target args) as [t|].
  - destruct (PlatformInfo_new t); [done | by intros [= <-]].
  - destruct (arg_build_current args); [by intros [= <-] |].
    destruct Hflags as [?|[[? ?]|?]]; done.
Qed.

(** ** The process: what [main] keeps *)

Lemma pstep_bind {A B} J E F (m : P A) (k : A → P B) :
  pstep J E m → (∀ a, pfinal J E F (k a)) → pfinal J E F (pbind m k).
Proof.
  intros Hm Hk. eapply ptriple_bind; [exact Hm | done | exact Hk].
Qed.

Lemma pstep_ret {A} J E (a : A) : pstep J E (pret a).
Proof. by intros p HJ. Qed.

Lemma pstep_for_each {A} J E (xs : list A) (body : A → P unit) :
  (∀ x, x ∈ xs → pstep J E (body x)) → pstep J E (pfor_each xs body).
Proof.
  induction xs as [|x xs IH]; intros Hb; simpl; [apply pstep_ret |].
  apply pstep_bind; [apply Hb; by left |]. intros _. apply IH.
  intros y Hy. apply Hb. by right.
Qed.

(** The steps of [main], each under what the flags and the inputs
    say when it runs: an exception of the first checks is told from
    one of a later step. *)
Section MainTripleInputs.
Variable J : Process → Prop.
Variable E : signal → Process → Prop.
Variable F : Process → Prop.
Variable order : list PlatformInfo → list PlatformInfo.
Variable info : string.
Variable args : Args.
Hypothesis E_current : ∀ e q, PlatformInfo_current info = inl e → J q → E (Raised e) q.
Hypothesis E_targets : ∀ cp e q,
  PlatformInfo_current info = inr cp → targets_of args cp = inl e → J q → E (Raised e) q.
Hypothesis S_detected : ∀ cp,
  pstep J E (method (print ("detected platform: " ++ PlatformInfo_repr cp)%string)).
Hypothesis S_ignoring : ∀ s,
  pstep J E (method (print ("ignoring --fetch since build target(s) provided: " ++ s)%string)).
Hypothesis S_clean : arg_clean args = true → pstep J E clean_builds.
Hypothesis S_build : ∀ cp bt t,
  targets_of args cp = inr bt → t ∈ order bt → ∀ v, pstep J E (build_target t v).
Hypothesis S_fetch : ∀ cp bt,
  targets_of args cp = inr bt → order bt = [] → arg_fetch args = true →
  ∀ v, pstep J E (fetch_build cp v).
Hypothesis S_run : arg_run args = true → ∀ cp v, pstep J E (run_build cp v).
Hypothesis S_ask : arg_publish args && arg_run args = true → pstep J E ask_user_if_build_ok.
Hypothesis S_publish : arg_publish args = true → ∀ v, pfinal J E F (publish_build v).
Hypothesis F_skip : arg_publish args = false → ∀ q, J q → F q.

Lemma main_triple_inputs : pfinal J E F (main order info args).
Proof.
  unfold main. intros p HJ. rewrite pbind_run. unfold plift at 1.
  destruct (PlatformInfo_current info) as [e|cp] eqn:Hcur; [by apply E_current |].
  cbv beta iota. revert p HJ.
  apply pstep_bind; [apply S_detected |]. intros _.
  intros p HJ. rewrite pbind_run, targets_run.
  destruct (targets_of args cp) as [e|bt] eqn:Ht; [by apply (E_targets cp) |].
  unfold plift. cbv beta iota zeta.
  assert (∀ fetch : bool, (fetch = true → order bt = [] ∧ arg_fetch args = true) →
    pfinal J E F
      (pbind (if arg_clean args then clean_builds else pret tt) (λ _,
       pbind (pfor_each (order bt)
                (λ target, build_target target (version_or_latest (arg_version args))))
         (λ _,
       pbind (if fetch
              then fetch_build cp (version_or_latest (arg_version args)) else pret tt)
         (λ _,
       pbind (if arg_run args
              then run_build cp (version_or_latest (arg_version args)) else pret tt)
         (λ _,
       pbind (if arg_publish args && arg_run args
              then ask_user_if_build_ok else pret tt)
         (λ _,
       if arg_publish args
       then publish_build (version_or_latest (arg_version args)) else pret tt))))))) as Hrest.
  { intros fetch Hfetch.
    apply pstep_bind.
    { destruct (arg_clean args) eqn:?; [by apply S_clean | apply pstep_ret]. }
    intros _. apply pstep_bind.
    { apply pstep_for_each. intros t Ht'. by apply (S_build cp bt). }
    intros _. apply pstep_bind.
    { destruct fetch; [|apply pstep_ret].
      destruct Hfetch as [Ho Hf]; [done |]. by apply (S_fetch cp bt). }
    intros _. apply pstep_bind.
    { destruct (arg_run args) eqn:?; [by apply S_run | apply pstep_ret]. }
    intros _. apply pstep_bind.
    { destruct (arg_publish args && arg_run args) eqn:?; [by apply S_ask | apply pstep_ret]. }
    intros _. destruct (arg_publish args) eqn:?; [by apply S_publish |].
    intros q Hq. by apply F_skip. }
  rewrite pbind_run.
  destruct (order bt) as [|t ts] eqn:Ho.
  - assert (arg_fetch args = true → @nil PlatformInfo = [] ∧ arg_fetch args = true)
      as Hc by done.
    exact (Hrest (arg_fetch args) Hc p HJ).
  - assert (false = true → t :: ts = [] ∧ arg_fetch args = true) as Hc by done.
    destruct (arg_fetch args) eqn:Hf.
    + rewrite pbind_run.
      pose proof (S_ignoring (String.concat ", " (map PlatformInfo_repr (t :: ts))) p HJ)
        as HJ1.
      destruct (method _ p) as [[e|[]] p1]; [done |].
      exact (Hrest false Hc p1 HJ1).
    + exact (Hrest false Hc p HJ).
Qed.
End MainTripleInputs.

(** A property of the process that each step of [main] keeps, as far
    as the flags let the step run, is kept by [main]. *)
Section MainTriple.
Variable J : Process → Prop.
Variable E : signal → Process → Prop.
Variable F : Process → Prop.
Variable order : list PlatformInfo → list PlatformInfo.
Variable info : string.
Variable args : Args.
Hypothesis E_pure : ∀ e q, J q → E (Raised e) q.
Hypothesis S_detected : ∀ cp,
  pstep J E (method (print ("detected platform: " ++ PlatformInfo_repr cp)%string)).
Hypothesis S_ignoring : ∀ s,
  pstep J E (method (print ("ignoring --fetch since build target(s) provided: " ++ s)%string)).
Hypothesis S_clean : arg_clean args = true → pstep J E clean_builds.
Hypothesis S_build : ∀ cp bt t,
  targets_of args cp = inr bt → t ∈ order bt → ∀ v, pstep J E (build_target t v).
Hypothesis S_fetch : ∀ cp bt,
  targets_of args cp = inr bt → order bt = [] → arg_fetch args = true →
  ∀ v, pstep J E (fetch_build cp v).
Hypothesis S_run : arg_run args = true → ∀ cp v, pstep J E (run_build cp v).
Hypothesis S_ask : arg_publish args && arg_run args = true → pstep J E ask_user_if_build_ok.
Hypothesis S_publish : arg_publish args = true → ∀ v, pfinal J E F (publish_build v).
Hypothesis F_skip : arg_publish args = false → ∀ q, J q → F q.

Lemma main_triple : pfinal J E F (main order info args).
Proof.
  apply main_triple_inputs; try assumption.
  - intros e q _. apply E_pure.
  - intros cp e q _ _. apply E_pure.
Qed.
End MainTriple.

Lemma pstep_stable {A} J (m : P A) : pstable J m → pstep J (λ _, J) m.
Proof. intros H p HJ. specialize (H p HJ). by destruct (m p).1. Qed.

(** The form for a property that is kept whatever the outcome. *)
Section MainStable.
Variable J : Process → Prop.
Variable order : list PlatformInfo → list PlatformInfo.
Variable info : string.
Variable args : Args.
Hypothesis J_detected : ∀ cp,
  pstable J (method (print ("detected platform: " ++ PlatformInfo_repr cp)%string)).
Hypothesis J_ignoring : ∀ s,
  pstable J (method (print ("ignoring --fetch since build target(s) provided: " ++ s)%string)).
Hypothesis J_clean : arg_clean args = true → pstable J clean_builds.
Hypothesis J_build : ∀ cp bt t,
  targets_of args cp = inr bt → t ∈ order bt → ∀ v, pstable J (build_target t v).
Hypothesis J_fetch : ∀ cp bt,
  targets_of args cp = inr bt → order bt = [] → arg_fetch args = true →
  ∀ v, pstable J (fetch_build cp v).
Hypothesis J_run : arg_run args = true → ∀ cp v, pstable J (run_build cp v).
Hypothesis J_ask : arg_publish args && arg_run args = true → pstable J ask_user_if_build_ok.
Hypothesis J_publish : arg_publish args = true → ∀ v, pstable J (publish_build v).

Lemma main_stable : pstable J (main order info args).
Proof.
  intros p HJ.
  pose proof (main_triple J (λ _, J) J order info args) as H.
  unfold pfinal, ptriple in H.
  specialize (H (λ _ _ Hq, Hq)
                (λ cp, pstep_stable J _ (J_detected cp))
                (λ s, pstep_stable J _ (J_ignoring s))
                (λ Hc, pstep_stable J _ (J_clean Hc))
                (λ cp bt t Ht Hin v, pstep_stable J _ (J_build cp bt t Ht Hin v))
                (λ cp bt Ht Ho Hf v, pstep_stable J _ (J_fetch cp bt Ht Ho Hf v))
                (λ Hr cp v, pstep_stable J _ (J_run Hr cp v))
                (λ Ha, pstep_stable J _ (J_ask Ha))
                (λ Hp v, pstep_stable J _ (J_publish Hp v))
                (λ _ _ Hq, Hq) p HJ).
  by destruct (main order info args p).1.
Qed.
End MainStable.

(** The same for the functions that [main] calls: what the calls into
    the registry and the prints keep, the drivers keep.  [ok] says
    which lines may be printed. *)
Section DriversStable.
Variable J : Process → Prop.
Variable ok : string → Prop.
Hypothesis J_print : ∀ s, ok s → pstable J (method (print s)).
Hypothesis J_get : pstable J BuildDir_get.
Hypothesis J_get_or_create : ∀ t v, pstable J (method (get_or_create_build t v)).
Hypothesis J_get_build : ∀ t v, pstable J (method (get_build t v)).
Hypothesis J_clean : pstable J (method clean).

Lemma build_target_stable t v :
  ok ("building " ++ v ++ " for " ++ PlatformInfo_repr t)%string →
  pstable J (build_target t v).
Proof.
  intros Hok. unfold build_target, BuildInfo_get_or_create.
  apply pstable_bind; [by apply J_print |]. intros _.
  apply pstable_bind; [|intros b; apply pstable_ret].
  apply pstable_bind; [apply J_get | intros _; apply J_get_or_create].
Qed.

Lemma fetch_build_stable t v :
  ok ("fetching " ++ v ++ " for " ++ PlatformInfo_repr t)%string →
  pstable J (fetch_build t v).
Proof.
  intros Hok. unfold fetch_build, BuildInfo_get_or_create.
  apply pstable_bind; [by apply J_print |]. intros _.
  apply pstable_bind; [|intros b; apply pstable_ret].
  apply pstable_bind; [apply J_get | intros _; apply J_get_or_create].
Qed.

Lemma run_build_stable t v :
  ok ("running " ++ v ++ " as " ++ PlatformInfo_repr t)%string →
  pstable J (run_build t v).
Proof.
  intros Hok. unfold run_build, BuildInfo_get.
  apply pstable_bind; [by apply J_print |]. intros _.
  apply pstable_bind; [|intros b; apply pstable_ret].
  apply pstable_bind; [apply J_get | intros _; apply J_get_build].
Qed.

Lemma publish_build_stable v :
  ok ("publishing build(s) as " ++ v ++ " (TBD)")%string → pstable J (publish_build v).
Proof. intros Hok. by apply J_print. Qed.

Lemma clean_builds_stable : pstable J clean_builds.
Proof. apply pstable_bind; [apply J_get | intros _; apply J_clean]. Qed.
End DriversStable.

(** What the loop of [ask_is_build_ok] writes and reads. *)
Lemma ask_loop_writes lines :
  Forall (λ l, l = prompt ∨ l = "invalid response") (ask_loop lines).2.
Proof.
  induction lines as [|line rest IH]; simpl; [by repeat constructor |].
  destruct (str_in "y" (lower line)); [by repeat constructor |].
  destruct (str_in "n" (lower line)); [by repeat constructor |].
  destruct (ask_loop rest) as [[r rest'] out]. simpl in *. by repeat constructor.
Qed.

Lemma ask_user_if_build_ok_state p :
  (ask_user_if_build_ok p).2
  = mkProcess (set_stdout (stdout (world p) ++ (ask_loop (stdin p)).2) (world p))
              (has_instance p) (ask_loop (stdin p)).1.2.
Proof.
  unfold ask_user_if_build_ok, pbind, ask_is_build_ok.
  destruct (ask_loop (stdin p)) as [[[e|[]] rest] out]; reflexivity.
Qed.

(** *** The disk *)

Lemma disk_method {A} d (m : M A) :
  stable (λ w, disk w = d) m → pstable (λ p, disk (world p) = d) (method m).
Proof. apply (pstable_method (λ w, disk w = d)). Qed.

(** X18.  A run of [main] never changes the disk: whatever the flags,
    the platform string, the input and the order of the targets, and
    however the run ends, the disk after it is the disk before it.
    Nothing is built, fetched, published or removed on disk. *)
Theorem main_never_writes_disk (order : list PlatformInfo → list PlatformInfo)
    (info : string) (args : Args) (p : Process) :
  disk (world (main order info args p).2) = disk (world p).
Proof.
  set (d := disk (world p)).
  set (J := λ q : Process, disk (world q) = d).
  assert (∀ s, pstable J (method (print s))) as Hprint.
  { intros s. apply disk_method. by apply stable_modify. }
  assert (pstable J BuildDir_get) as Hget.
  { intros q H. unfold BuildDir_get. by destruct (has_instance q). }
  assert (∀ t v, pstable J (method (get_or_create_build t v))) as Hgoc.
  { intros t v. apply disk_method.
    by apply (stable_get_or_create_build (λ _ w, disk w = d)) with (pins := []). }
  assert (∀ t v, pstable J (method (get_build t v))) as Hgb.
  { intros t v. apply disk_method.
    by apply (stable_get_build (λ _ w, disk w = d)) with (pins := []). }
  assert (pstable J (method clean)) as Hcl.
  { apply disk_method. by apply (stable_clean (λ _ w, disk w = d)) with (pins := []). }
  apply (main_stable J); try done.
  - intros _. by apply (clean_builds_stable J).
  - intros cp bt t _ _ v. by apply (build_target_stable J (λ _, True)).
  - intros cp bt _ _ _ v. by apply (fetch_build_stable J (λ _, True)).
  - intros _ cp v. by apply (run_build_stable J (λ _, True)).
  - intros _ q H. unfold J. by rewrite ask_user_if_build_ok_state.
Qed.

(** *** The input *)

Lemma stdin_method {A} (l : list string) (m : M A) :
  pstable (λ p, stdin p = l) (method m).
Proof. intros p H. by rewrite method_run. Qed.

(** X19.  [main] reads the input only to confirm a publication of a
    run: unless both [--publish] and [--run] are given, the input after
    the run is the input before it, however the run ends. *)
Theorem main_reads_input_only_to_publish_a_run
    (order : list PlatformInfo → list PlatformInfo)
    (info : string) (args : Args) (p : Process) :
  arg_publish args && arg_run args = false →
  stdin (main order info args p).2 = stdin p.
Proof.
  intros Hflags.
  set (J := λ q : Process, stdin q = stdin p).
  assert (pstable J BuildDir_get) as Hget.
  { intros q H. unfold BuildDir_get. by destruct (has_instance q). }
  apply (main_stable J); try done; try (intros; apply stdin_method).
  - intros _. apply (clean_builds_stable J); [done | apply stdin_method].
  - intros cp bt t _ _ v. apply (build_target_stable J (λ _, True)); try done;
      intros; apply stdin_method.
  - intros cp bt _ _ _ v. apply (fetch_build_stable J (λ _, True)); try done;
      intros; apply stdin_method.
  - intros _ cp v. apply (run_build_stable J (λ _, True)); try done;
      intros; apply stdin_method.
  - congruence.
Qed.

Lemma main_reads_input_only_to_publish_a_run_witness :
  let args := mkArgs None None true false false true true false in
  let p := boot ∅ ["n"] in
  arg_publish args && arg_run args = false ∧
  stdin (main (λ l, l) "Linux-x86_64" args p).2 = stdin p.
Proof.
  cbv zeta. split; [reflexivity |].
  by apply main_reads_input_only_to_publish_a_run.
Defined.

(** *** The output *)

(** The lines that the registry and the prompt write start with no
    [tag] that they are not made of. *)
Section Quiet.
Variable tag : string.
Hypothesis T_removing : starts tag "removing 0 local build(s):" = false.
Hypothesis T_prompt : starts tag prompt = false.
Hypothesis T_invalid : starts tag "invalid response" = false.

Lemma quiet_print s : starts tag s = false → pstable (quiet tag) (method (print s)).
Proof.
  intros Hs. apply (pstable_method (λ w, Forall (λ l, starts tag l = false) (stdout w))).
  apply stable_modify. intros w Hw. simpl. apply Forall_app. split; [done |].
  by repeat constructor.
Qed.

Lemma quiet_BuildDir_get : pstable (quiet tag) BuildDir_get.
Proof. intros p H. unfold BuildDir_get. by destruct (has_instance p). Qed.

Lemma quiet_get_or_create_build t v : pstable (quiet tag) (method (get_or_create_build t v)).
Proof.
  apply (pstable_method (λ w, Forall (λ l, starts tag l = false) (stdout w))).
  by apply (stable_get_or_create_build
              (λ _ w, Forall (λ l, starts tag l = false) (stdout w))) with (pins := []).
Qed.

Lemma quiet_get_build t v : pstable (quiet tag) (method (get_build t v)).
Proof.
  apply (pstable_method (λ w, Forall (λ l, starts tag l = false) (stdout w))).
  by apply (stable_get_build
              (λ _ w, Forall (λ l, starts tag l = false) (stdout w))) with (pins := []).
Qed.

Lemma quiet_clean : pstable (quiet tag) (method clean).
Proof.
  apply (pstable_method (λ w, Forall (λ l, starts tag l = false) (stdout w))).
  intros w Hw. destruct (disk w !! build_dir (this w)) as [n|] eqn:E.
  - rewrite clean_present_root by (by eexists).
    assert (Forall (λ l, starts tag l = false) (stdout (get_build_list w).2)) as Hg.
    { by apply (stable_get_build_list
                  (λ _ w, Forall (λ l, starts tag l = false) (stdout w))) with (pins := []). }
    destruct (get_build_list w) as [[e|[|b bs]] w1]; simpl in *; [done | | done].
    apply Forall_app. split; [done |]. by repeat constructor.
  - by rewrite clean_missing_root.
Qed.

Lemma quiet_ask : pstable (quiet tag) ask_user_if_build_ok.
Proof.
  intros p Hp. unfold quiet. rewrite ask_user_if_build_ok_state. simpl.
  apply Forall_app. split; [done |].
  eapply Forall_impl; [apply ask_loop_writes |]. by intros l [-> | ->].
Qed.
End Quiet.

(** X20.  With a build flag ([--build-all], [--build-target] or
    [--build]), [--fetch] has no effect: no line that starts with
    [fetching] is printed, so [fetch_build] is not called, however the
    run ends.  The set of targets may hand out its members in any
    order. *)
Theorem main_ignores_fetch_with_targets (order : list PlatformInfo → list PlatformInfo)
    (info : string) (args : Args) (p : Process) :
  (∀ l, order l = [] → l = []) →
  arg_build_all args = true ∨ is_Some (arg_build_target args)
  ∨ arg_build_current args = true →
  quiet "fetching" p →
  quiet "fetching" (main order info args p).2.
Proof.
  intros Horder Hflags. apply (main_stable (quiet "fetching")).
  - intros cp. by apply quiet_print.
  - intros s. by apply quiet_print.
  - intros _. apply (clean_builds_stable (quiet "fetching"));
      [apply quiet_BuildDir_get | by apply quiet_clean].
  - intros cp bt t _ _ v.
    apply (build_target_stable (quiet "fetching") (λ s, starts "fetching" s = false));
      [by apply quiet_print | apply quiet_BuildDir_get
      | apply quiet_get_or_create_build | done].
  - intros cp bt Ht Ho _. apply Horder in Ho.
    by destruct (targets_nonempty args cp bt Hflags Ht).
  - intros _ cp v.
    apply (run_build_stable (quiet "fetching") (λ s, starts "fetching" s = false));
      [by apply quiet_print | apply quiet_BuildDir_get | apply quiet_get_build | done].
  - intros _. by apply quiet_ask.
  - intros _ v. by apply quiet_print.
Qed.

Lemma main_ignores_fetch_with_targets_witness :
  let args := mkArgs (Some "v2") None false true false true false false in
  let p := boot ∅ [] in
  ((∀ l : list PlatformInfo, (λ l, l) l = [] → l = []) ∧
   (arg_build_all args = true ∨ is_Some (arg_build_target args)
    ∨ arg_build_current args = true) ∧
   quiet "fetching" p) ∧
  quiet "fetching" (main (λ l, l) "Linux-x86_64" args p).2.
Proof.
  cbv zeta.
  assert (quiet "fetching" (boot ∅ [])) as Hq by constructor.
  split; [split; [done | split; [by right; right | exact Hq]] |].
  apply main_ignores_fetch_with_targets; [done | by right; right | exact Hq].
Defined.

(** X21.  Without [--publish], [main] prints no line that starts with
    [publishing], however the run ends. *)
Theorem main_publishes_only_on_request (order : list PlatformInfo → list PlatformInfo)
    (info : string) (args : Args) (p : Process) :
  arg_publish args = false →
  quiet "publishing" p →
  quiet "publishing" (main order info args p).2.
Proof.
  intros Hflag. apply (main_stable (quiet "publishing")).
  - intros cp. by apply quiet_print.
  - intros s. by apply quiet_print.
  - intros _. apply (clean_builds_stable (quiet "publishing"));
      [apply quiet_BuildDir_get | by apply quiet_clean].
  - intros cp bt t _ _ v.
    apply (build_target_stable (quiet "publishing") (λ s, starts "publishing" s = false));
      [by apply quiet_print | apply quiet_BuildDir_get
      | apply quiet_get_or_create_build | done].
  - intros cp bt _ _ _ v.
    apply (fetch_build_stable (quiet "publishing") (λ s, starts "publishing" s = false));
      [by apply quiet_print | apply quiet_BuildDir_get
      | apply quiet_get_or_create_build | done].
  - intros _ cp v.
    apply (run_build_stable (quiet "publishing") (λ s, starts "publishing" s = false));
      [by apply quiet_print | apply quiet_BuildDir_get | apply quiet_get_build | done].
  - intros _. by apply quiet_ask.
  - congruence.
Qed.

Lemma main_publishes_only_on_request_witness :
  let args := mkArgs None (Some "win") false false true true false true in
  let p := boot ∅ ["y"] in
  (arg_publish args = false ∧ quiet "publishing" p) ∧
  quiet "publishing" (main (λ l, l) "Darwin-x86_64" args p).2.
Proof.
  cbv zeta.
  assert (quiet "publishing" (boot ∅ ["y"])) as Hq by constructor.
  split; [split; [reflexivity | exact Hq] |].
  by apply main_publishes_only_on_request.
Defined.

(** *** How a run can end *)

Lemma raised_only_method {A} (m : M A) : raised_only (method m).
Proof.
  intros p s. rewrite method_run. simpl.
  destruct (m (world p)).1 as [e|a]; [|done]. intros [= <-]. by eexists.
Qed.

Lemma raised_only_ret {A} (a : A) : raised_only (pret a).
Proof. by intros p s. Qed.

Lemma raised_only_bind {A B} (m : P A) (k : A → P B) :
  raised_only m → (∀ a, raised_only (k a)) → raised_only (pbind m k).
Proof.
  intros Hm Hk p s. rewrite pbind_run. specialize (Hm p).
  destruct (m p) as [[e|a] p']; simpl in *; [|apply Hk].
  intros [= <-]. by apply Hm.
Qed.

Lemma raised_only_BuildDir_get : raised_only BuildDir_get.
Proof. intros p s. unfold BuildDir_get. by destruct (has_instance p). Qed.

Lemma raised_only_build_target t v : raised_only (build_target t v).
Proof.
  apply raised_only_bind; [apply raised_only_method |]. intros _.
  apply raised_only_bind; [|intros b; apply raised_only_ret].
  apply raised_only_bind; [apply raised_only_BuildDir_get |]. intros _.
  apply raised_only_method.
Qed.

Lemma raised_only_fetch_build t v : raised_only (fetch_build t v).
Proof.
  apply raised_only_bind; [apply raised_only_method |]. intros _.
  apply raised_only_bind; [|intros b; apply raised_only_ret].
  apply raised_only_bind; [apply raised_only_BuildDir_get |]. intros _.
  apply raised_only_method.
Qed.

Lemma raised_only_run_build t v : raised_only (run_build t v).
Proof.
  apply raised_only_bind; [apply raised_only_method |]. intros _.
  apply raised_only_bind; [|intros b; apply raised_only_ret].
  apply raised_only_bind; [apply raised_only_BuildDir_get |]. intros _.
  apply raised_only_method.
Qed.

Lemma raised_only_clean_builds : raised_only clean_builds.
Proof.
  apply raised_only_bind; [apply raised_only_BuildDir_get |]. intros _.
  apply raised_only_method.
Qed.

Lemma pstep_of {A} (J : Process → Prop) (E : signal → Process → Prop) (m : P A) :
  (∀ e q, J q → E (Raised e) q) →
  pstable J m → raised_only m → pstep J E m.
Proof.
  intros HE Hs Hr p HJ. specialize (Hs p HJ). specialize (Hr p).
  destruct (m p).1 as [s|a]; [|done].
  destruct (Hr s eq_refl) as [e ->]. by apply HE.
Qed.

(** X22.  When a run of [main] does not end normally, it has printed
    no line that starts with [publishing]: the publication is the last
    step and is announced only after everything else went through.  A
    run ends in [SystemExit] or [EOFError] only when both [--publish]
    and [--run] are given; every other abnormal end is an exception
    raised by the registry or by [PlatformInfo]. *)
Theorem main_abnormal_end (order : list PlatformInfo → list PlatformInfo)
    (info : string) (args : Args) (p : Process) (s : signal) :
  quiet "publishing" p →
  (main order info args p).1 = inl s →
  quiet "publishing" (main order info args p).2 ∧
  ((∀ e, s ≠ Raised e) → arg_publish args && arg_run args = true).
Proof.
  intros Hq Hs.
  set (J := quiet "publishing").
  set (E := λ (s : signal) (q : Process),
              J q ∧ ((∀ e, s ≠ Raised e) → arg_publish args && arg_run args = true)).
  assert (∀ e q, J q → E (Raised e) q) as HE.
  { intros e q HJ. split; [done |]. intros Hne. by destruct (Hne e). }
  assert (pfinal J E (λ _, True) (main order info args)) as H.
  { apply main_triple; [exact HE | | | | | | | | | done].
    - intros cp. apply (pstep_of J E _ HE); [|apply raised_only_method].
      by apply quiet_print.
    - intros l. apply (pstep_of J E _ HE); [|apply raised_only_method].
      by apply quiet_print.
    - intros _. apply (pstep_of J E _ HE); [|apply raised_only_clean_builds].
      apply (clean_builds_stable J); [apply quiet_BuildDir_get | by apply quiet_clean].
    - intros cp bt t _ _ v. apply (pstep_of J E _ HE); [|apply raised_only_build_target].
      apply (build_target_stable J (λ s, starts "publishing" s = false));
        [by apply quiet_print | apply quiet_BuildDir_get
        | apply quiet_get_or_create_build | done].
    - intros cp bt _ _ _ v. apply (pstep_of J E _ HE); [|apply raised_only_fetch_build].
      apply (fetch_build_stable J (λ s, starts "publishing" s = false));
        [by apply quiet_print | apply quiet_BuildDir_get
        | apply quiet_get_or_create_build | done].
    - intros _ cp v. apply (pstep_of J E _ HE); [|apply raised_only_run_build].
      apply (run_build_stable J (λ s, starts "publishing" s = false));
        [by apply quiet_print | apply quiet_BuildDir_get | apply quiet_get_build | done].
    - intros Ha q HJ. pose proof (quiet_ask "publishing" eq_refl eq_refl q HJ) as Hk.
      destruct (ask_user_if_build_ok q).1; [by split | done].
    - intros _ v q HJ. unfold publish_build. by rewrite method_run. }
  specialize (H p Hq). simpl in H. by rewrite Hs in H.
Qed.

Lemma main_abnormal_end_witness :
  let args := mkArgs None None true false true false true false in
  let p := boot ∅ ["no"] in
  (quiet "publishing" p ∧
   (main (λ l, l) "Linux-x86_64" args p).1 = inl SystemExit) ∧
  quiet "publishing" (main (λ l, l) "Linux-x86_64" args p).2 ∧
  ((∀ e, SystemExit ≠ Raised e) → arg_publish args && arg_run args = true).
Proof.
  cbv zeta.
  assert (quiet "publishing" (boot ∅ ["no"])) as Hq by constructor.
  assert ((main (λ l, l) "Linux-x86_64"
             (mkArgs None None true false true false true false) (boot ∅ ["no"])).1
          = inl SystemExit) as Hs by (vm_compute; reflexivity).
  split; [split; [exact Hq | exact Hs] |].
  by apply main_abnormal_end.
Defined.

(** *** [--clean] *)

Lemma print_run s p :
  method (print s) p
  = (inr tt, set_world (set_stdout (stdout (world p) ++ [s]) (world p)) p).
Proof. reflexivity. Qed.

Lemma get_build_list_keeps_stdout w : stdout (get_build_list w).2 = stdout w.
Proof.
  by apply (stable_get_build_list (λ _ w', stdout w' = stdout w)) with (pins := []).
Qed.

(** With the root of the registry on disk, [clean_builds] raises, and
    has written at most the report of zero builds. *)
Lemma clean_builds_present p :
  is_Some (disk (world p) !! registry_root p) →
  ∃ e extra, (clean_builds p).1 = inl (Raised e) ∧
    stdout (world (clean_builds p).2) = stdout (world p) ++ extra ∧
    Forall (λ l, l = "removing 0 local build(s):") extra.
Proof.
  intros Hroot. unfold clean_builds. rewrite pbind_run.
  assert (∃ w, BuildDir_get p = (inr tt, mkProcess w true (stdin p)) ∧
               build_dir (this w) = registry_root p ∧ disk w = disk (world p) ∧
               stdout w = stdout (world p)) as (w & -> & Hb & Hd & Ho).
  { unfold BuildDir_get, registry_root. destruct p as [w [] l]; simpl.
    - by exists w.
    - eexists. split; [done |]. simpl. split; [|done].
      unfold BuildDir_init. by destruct (String.eqb (BUILD_DIR w) ""). }
  rewrite method_run. cbn [world fst snd].
  assert (is_Some (disk w !! build_dir (this w))) as Hw by (by rewrite Hb, Hd).
  rewrite (clean_present_root w Hw).
  pose proof (get_build_list_keeps_stdout w) as Hs.
  destruct (get_build_list w) as [[e|[|b bs]] w1]; simpl in *.
  - exists e, []. by rewrite app_nil_r, Hs, Ho.
  - exists (NameError "build_dir"), ["removing 0 local build(s):"].
    rewrite Hs, Ho. by repeat constructor.
  - exists (AttributeError "BuildInfo" "exists"), []. by rewrite app_nil_r, Hs, Ho.
Qed.

Lemma clean_builds_then {B} (k : unit → P B) p :
  is_Some (disk (world p) !! registry_root p) →
  ∃ e extra, (pbind clean_builds k p).1 = inl (Raised e) ∧
    stdout (world (pbind clean_builds k p).2) = stdout (world p) ++ extra ∧
    Forall (λ l, l = "removing 0 local build(s):") extra.
Proof.
  intros Hroot. destruct (clean_builds_present p Hroot) as (e & extra & He & Ho & Hx).
  exists e, extra. rewrite pbind_run.
  destruct (clean_builds p) as [[s|[]] p2]; cbn [fst snd] in *; [|done].
  injection He as ->. done.
Qed.

(** X23.  [--clean] on a build directory that exists ends the run:
    for every platform string and every set of flags that pass the
    first checks, when the root of the registry is on disk, [main]
    raises in [clean_builds], before any target is built, fetched or
    run.  Besides the line of the detected platform it has printed at
    most the notice that [--fetch] is ignored and the report of zero
    builds. *)
Theorem main_clean_aborts (order : list PlatformInfo → list PlatformInfo)
    (info : string) (args : Args) (p : Process)
    (cp : PlatformInfo) (bt : list PlatformInfo) :
  arg_clean args = true →
  PlatformInfo_current info = inr cp →
  targets_of args cp = inr bt →
  is_Some (disk (world p) !! registry_root p) →
  ∃ e extra, (main order info args p).1 = inl (Raised e) ∧
    stdout (world (main order info args p).2)
    = stdout (world p) ++ ("detected platform: " ++ PlatformInfo_repr cp)%string :: extra ∧
    Forall (λ l, starts "ignoring --fetch" l = true ∨ l = "removing 0 local build(s):")
           extra.
Proof.
  intros Hclean Hcur Ht Hroot.
  assert (∃ (k : unit → P unit) p' extra0,
            main order info args p = pbind clean_builds k p' ∧
            is_Some (disk (world p') !! registry_root p') ∧
            stdout (world p')
            = stdout (world p)
              ++ ("detected platform: " ++ PlatformInfo_repr cp)%string :: extra0 ∧
            Forall (λ l, starts "ignoring --fetch" l = true) extra0)
    as (k & p' & extra0 & Heq & Hroot' & Hout & Hx0).
  { destruct (order bt) as [|t ts] eqn:Ho; [|destruct (arg_fetch args) eqn:Hf].
    - eexists _, _, []. split; [|split; [|split; [|by constructor]]].
      + unfold main. rewrite pbind_run. unfold plift at 1. rewrite Hcur. cbv beta iota.
        rewrite pbind_run, print_run. cbv beta iota.
        rewrite pbind_run, targets_run, Ht. unfold plift. cbv beta iota zeta.
        rewrite Hclean, Ho. rewrite pbind_run. unfold pret at 1. cbv beta iota.
        reflexivity.
      + done.
      + done.
    - eexists _, _, [_]. split; [|split; [|split]].
      + unfold main. rewrite pbind_run. unfold plift at 1. rewrite Hcur. cbv beta iota.
        rewrite pbind_run, print_run. cbv beta iota.
        rewrite pbind_run, targets_run, Ht. unfold plift. cbv beta iota zeta.
        rewrite Hclean, Ho, Hf. rewrite pbind_run.
        rewrite pbind_run, print_run. cbv beta iota. unfold pret at 1. cbv beta iota.
        reflexivity.
      + done.
      + simpl. by rewrite <- app_assoc.
      + by repeat constructor.
    - eexists _, _, []. split; [|split; [|split; [|by constructor]]].
      + unfold main. rewrite pbind_run. unfold plift at 1. rewrite Hcur. cbv beta iota.
        rewrite pbind_run, print_run. cbv beta iota.
        rewrite pbind_run, targets_run, Ht. unfold plift. cbv beta iota zeta.
        rewrite Hclean, Ho, Hf. rewrite pbind_run. unfold pret at 1. cbv beta iota.
        reflexivity.
      + done.
      + done. }
  rewrite Heq.
  destruct (clean_builds_then k p' Hroot') as (e & extra & He & Ho & Hx).
  exists e, (extra0 ++ extra). split; [exact He |]. split.
  - rewrite Ho, Hout. by rewrite <- app_assoc.
  - apply Forall_app. split.
    + eapply Forall_impl; [exact Hx0 |]. intros l Hl. by left.
    + eapply Forall_impl; [exact Hx |]. intros l ->. by right.
Qed.

Lemma main_clean_aborts_witness :
  let args := mkArgs None None true false false true false true in
  let p := boot disk_two [] in
  let cp := mkPlatformInfo "linux" "x86_64" in
  let bt := [mkPlatformInfo "mac" "x86_64"; mkPlatformInfo "windows" "x86_64";
             mkPlatformInfo "linux" "x86_64"] in
  (arg_clean args = true ∧ PlatformInfo_current "Linux-x86_64" = inr cp ∧
   targets_of args cp = inr bt ∧ is_Some (disk (world p) !! registry_root p)) ∧
  ∃ e extra, (main (λ l, l) "Linux-x86_64" args p).1 = inl (Raised e) ∧
    stdout (world (main (λ l, l) "Linux-x86_64" args p).2)
    = stdout (world p) ++ ("detected platform: " ++ PlatformInfo_repr cp)%string :: extra ∧
    Forall (λ l, starts "ignoring --fetch" l = true ∨ l = "removing 0 local build(s):")
           extra.
Proof.
  cbv zeta.
  assert (is_Some (disk (world (boot disk_two [])) !! registry_root (boot disk_two [])))
    as Hroot by (eexists; vm_compute; reflexivity).
  split.
  - split; [reflexivity |]. split; [vm_compute; reflexivity |].
    split; [vm_compute; reflexivity | exact Hroot].
  - apply (main_clean_aborts _ _ _ _ _
             [mkPlatformInfo "mac" "x86_64"; mkPlatformInfo "windows" "x86_64";
              mkPlatformInfo "linux" "x86_64"]);
      [reflexivity | vm_compute; reflexivity | vm_compute; reflexivity | exact Hroot].
Defined.

(** ** The loop over the build targets *)

(** [BuildDir.get()] creates the registry on [BUILD_DIR]. *)
Lemma BuildDir_init_default root : build_dir (BuildDir_init root (Some root)) = root.
Proof. unfold BuildDir_init. by destruct (String.eqb root ""). Qed.

(** A lookup that scans the disk leaves the same answer as one on the
    registry it has loaded. *)
Lemma get_or_create_build_after_scan p v w s w1 :
  get_build_list w = (inr s, w1) → _build_list (this w1) = Some s →
  get_or_create_build p v w = get_or_create_build p v w1.
Proof.
  intros Hg Hl. unfold get_or_create_build, get_build.
  rewrite !bind_run. rewrite Hg, (get_build_list_loaded w1 s Hl). reflexivity.
Qed.

(** The first read of a registry: the two-level scan, or nothing when
    the root is missing. *)
Lemma get_build_list_first w :
  _build_list (this w) = None →
  scannable (disk w) (build_dir (this w)) = true ∨ disk w !! build_dir (this w) = None →
  let bs := mk_records (disk w) (build_dir (this w)) (length (heap w))
                       (disk_pairs (disk w) (build_dir (this w))) in
  get_build_list w = (inr bs, set_build_list (Some bs) (set_heap (heap w ++ bs) w)).
Proof.
  intros Hl [Hs | Hm].
  - by apply get_build_list_unloaded.
  - cbv zeta. unfold disk_pairs, listing. rewrite Hm. cbn [flat_map mk_records].
    rewrite app_nil_r.
    unfold get_build_list, get_build_list_with.
    rewrite bind_run. unfold gets at 1. rewrite Hl. cbv beta iota.
    rewrite bind_run. unfold modify at 1. cbv beta iota.
    rewrite bind_run, load_missing_root by done.
    by destruct w.
Qed.

(** One call of [build_target] on a process that has its registry,
    loaded. *)
Lemma build_target_loaded t v p s :
  has_instance p = true → Inv [] (world p) → _build_list (this (world p)) = Some s →
  let w1 := set_stdout (stdout (world p) ++ [building_line v t]) (world p) in
  let b := constructed (disk w1) (length (heap w1)) (build_dir (this w1))
                       (pi_platform t) v in
  build_target t v p
  = (inr tt, set_world (set_build_list (Some (s ++ [b])) (set_heap (heap w1 ++ [b]) w1)) p).
Proof.
  intros Hi HI Hl. cbv zeta. unfold build_target.
  rewrite pbind_run, print_run. cbv beta iota.
  rewrite pbind_run. unfold BuildInfo_get_or_create. rewrite pbind_run.
  unfold BuildDir_get at 1. cbn [has_instance set_world]. rewrite Hi. cbv beta iota.
  rewrite method_run. cbn [world].
  rewrite (get_or_create_build_PlatformInfo_Inv t v _ s); [reflexivity | | exact Hl].
  by apply Inv_stdout.
Qed.

Lemma build_loop_loaded v ts : ∀ p s,
  has_instance p = true → Inv [] (world p) → _build_list (this (world p)) = Some s →
  ∃ bs, (pfor_each ts (λ t, build_target t v) p).1 = inr tt ∧
    _build_list (this (world (pfor_each ts (λ t, build_target t v) p).2)) = Some (s ++ bs) ∧
    map identity bs = map (λ t, (pi_platform t, v)) ts ∧
    stdout (world (pfor_each ts (λ t, build_target t v) p).2)
    = stdout (world p) ++ map (building_line v) ts ∧
    disk (world (pfor_each ts (λ t, build_target t v) p).2) = disk (world p).
Proof.
  induction ts as [|t ts IH]; intros p s Hi HI Hl.
  - exists []. cbn. by rewrite !app_nil_r.
  - cbn [pfor_each]. rewrite pbind_run, (build_target_loaded t v p s Hi HI Hl).
    cbv beta iota zeta.
    set (w1 := set_stdout _ (world p)).
    set (b := constructed _ _ _ _ _).
    set (p' := set_world _ p).
    destruct (IH p' (s ++ [b])) as (bs & Hr & Hs & Hid & Ho & Hd).
    + done.
    + pose proof (step_Inv _ _ (step_get_or_create_build w1 (VPlatformInfo t) v)
                           (Inv_stdout _ _ _ HI)) as H.
      rewrite (get_or_create_build_PlatformInfo_Inv t v w1 s) in H;
        [exact H | by apply Inv_stdout | exact Hl].
    + done.
    + exists (b :: bs). split; [exact Hr |]. split; [|split; [|split]].
      * rewrite Hs. by rewrite <- app_assoc.
      * cbn [map]. f_equal; [apply constructed_identity | exact Hid].
      * rewrite Ho. cbn. by rewrite <- app_assoc.
      * rewrite Hd. reflexivity.
Qed.

(** X24.  The loop over the build targets, when it is the first use of
    the registry in the process and the root can be scanned or is
    missing: it ends normally, the registry holds the records of the
    disk followed by one new record per target, in the order of the
    targets and carrying the target's platform and the version (also
    for a target whose (platform, version) is on the disk already); one
    line per target is printed and the disk is as before. *)
Theorem build_loop_adds_a_record_per_target (v : string) (t : PlatformInfo)
    (ts : list PlatformInfo) (p : Process) :
  has_instance p = false →
  scannable (disk (world p)) (BUILD_DIR (world p)) = true
  ∨ disk (world p) !! BUILD_DIR (world p) = None →
  let q := pfor_each (t :: ts) (λ t, build_target t v) p in
  ∃ bs, q.1 = inr tt ∧
    _build_list (this (world q.2))
    = Some (mk_records (disk (world p)) (BUILD_DIR (world p)) (length (heap (world p)))
                       (disk_pairs (disk (world p)) (BUILD_DIR (world p))) ++ bs) ∧
    map identity bs = map (λ t, (pi_platform t, v)) (t :: ts) ∧
    stdout (world q.2) = stdout (world p) ++ map (building_line v) (t :: ts) ∧
    disk (world q.2) = disk (world p).
Proof.
  intros Hi Hroot. cbv zeta. cbn [pfor_each]. rewrite pbind_run.
  set (w1 := set_this (BuildDir_init (BUILD_DIR (world p)) (Some (BUILD_DIR (world p))))
                      (set_stdout (stdout (world p) ++ [building_line v t]) (world p))).
  set (recs := mk_records _ _ _ _).
  assert (build_dir (this w1) = BUILD_DIR (world p)) as Hbd
    by apply BuildDir_init_default.
  assert (scannable (disk w1) (build_dir (this w1)) = true
          ∨ disk w1 !! build_dir (this w1) = None) as Hroot1 by by rewrite Hbd.
  pose proof (get_build_list_first w1 eq_refl Hroot1) as Hg. cbv zeta in Hg.
  rewrite Hbd in Hg.
  change (mk_records _ _ _ _) with recs in Hg.
  set (w2 := set_build_list (Some recs) (set_heap (heap w1 ++ recs) w1)) in Hg.
  assert (Inv [] w2) as HI2.
  { pose proof (step_Inv _ _ (step_get_build_list w1)) as H. rewrite Hg in H.
    apply H. split; [by intros b Hb%elem_of_nil | done]. }
  set (b := constructed (disk w2) (length (heap w2)) (build_dir (this w2)) (pi_platform t) v).
  set (w3 := set_build_list (Some (recs ++ [b])) (set_heap (heap w2 ++ [b]) w2)).
  assert (build_target t v p = (inr tt, mkProcess w3 true (stdin p))) as Hstep.
  { unfold build_target. rewrite pbind_run, print_run. cbv beta iota.
    rewrite pbind_run. unfold BuildInfo_get_or_create. rewrite pbind_run.
    unfold BuildDir_get at 1. cbn [has_instance set_world]. rewrite Hi. cbv beta iota.
    rewrite method_run. cbn [world].
    change (set_this _ _) with w1.
    rewrite (get_or_create_build_after_scan _ _ w1 recs w2 Hg eq_refl).
    rewrite (get_or_create_build_PlatformInfo_Inv t v w2 recs HI2 eq_refl).
    reflexivity. }
  rewrite Hstep. cbv beta iota.
  destruct (build_loop_loaded v ts (mkProcess w3 true (stdin p)) (recs ++ [b]))
    as (bs & Hr & Hs & Hid & Ho & Hd).
  - done.
  - pose proof (step_Inv _ _ (step_get_or_create_build w2 (VPlatformInfo t) v) HI2) as H.
    by rewrite (get_or_create_build_PlatformInfo_Inv t v w2 recs HI2 eq_refl) in H.
  - done.
  - exists (b :: bs). split; [exact Hr |]. split; [|split; [|split]].
    + rewrite Hs. by rewrite <- app_assoc.
    + cbn [map]. f_equal; [apply constructed_identity | exact Hid].
    + rewrite Ho. cbn. by rewrite <- app_assoc.
    + rewrite Hd. reflexivity.
Qed.

Lemma build_loop_adds_a_record_per_target_witness :
  let p := boot disk_two [] in
  let t := mkPlatformInfo "mac" "x86_64" in
  let ts := [mkPlatformInfo "windows" "x86_64"] in
  (has_instance p = false ∧
   (scannable (disk (world p)) (BUILD_DIR (world p)) = true
    ∨ disk (world p) !! BUILD_DIR (world p) = None)) ∧
  ∃ bs, (pfor_each (t :: ts) (λ t, build_target t "v1.0") p).1 = inr tt ∧
    _build_list (this (world (pfor_each (t :: ts) (λ t, build_target t "v1.0") p).2))
    = Some (mk_records (disk (world p)) (BUILD_DIR (world p)) (length (heap (world p)))
                       (disk_pairs (disk (world p)) (BUILD_DIR (world p))) ++ bs) ∧
    map identity bs = map (λ t, (pi_platform t, "v1.0")) (t :: ts) ∧
    stdout (world (pfor_each (t :: ts) (λ t, build_target t "v1.0") p).2)
    = stdout (world p) ++ map (building_line "v1.0") (t :: ts) ∧
    disk (world (pfor_each (t :: ts) (λ t, build_target t "v1.0") p).2) = disk (world p).
Proof.
  cbv zeta. split.
  - split; [reflexivity | left; vm_compute; reflexivity].
  - apply (build_loop_adds_a_record_per_target "v1.0" (mkPlatformInfo "mac" "x86_64")
             [mkPlatformInfo "windows" "x86_64"] (boot disk_two []));
      [reflexivity | left; vm_compute; reflexivity].
Defined.

(** ** The runs of [main] that end normally *)

Lemma get_build_list_ok w :
  scannable (disk w) (build_dir (this w)) = true ∨ disk w !! build_dir (this w) = None →
  ∃ s, get_build_list w = (inr s, (get_build_list w).2) ∧
       _build_list (this (get_build_list w).2) = Some s.
Proof.
  intros Hroot. destruct (_build_list (this w)) as [s|] eqn:Hl.
  - exists s. by rewrite (get_build_list_loaded w s Hl).
  - eexists. by rewrite (get_build_list_first w Hl Hroot).
Qed.

Lemma get_or_create_build_PlatformInfo_ok t v w :
  Inv [] w →
  scannable (disk w) (build_dir (this w)) = true ∨ disk w !! build_dir (this w) = None →
  ∃ b, (get_or_create_build (VPlatformInfo t) v w).1 = inr b.
Proof.
  intros HI Hroot. destruct (get_build_list_ok w Hroot) as (s & Hg & Hl).
  rewrite (get_or_create_build_after_scan _ _ w s _ Hg Hl).
  assert (Inv [] (get_build_list w).2) as HI'
    by (apply (step_Inv w); [constructor | done]).
  rewrite (get_or_create_build_PlatformInfo_Inv t v _ s HI' Hl). by eexists.
Qed.

Lemma get_build_ok pl v w :
  scannable (disk w) (build_dir (this w)) = true ∨ disk w !! build_dir (this w) = None →
  ∃ r, (get_build pl v w).1 = inr r.
Proof.
  intros Hroot. destruct (get_build_list_ok w Hroot) as (s & Hg & _).
  unfold get_build. rewrite bind_run, Hg. by eexists.
Qed.

Lemma sound_method c {A} (m : M A) :
  (∀ w, frame w [] (m w).2) → (∀ w, Inv [] w → Inv [] (m w).2) →
  pstable (sound c) (method m).
Proof.
  intros Hf HI p [Hr Hi]. rewrite method_run. cbn [snd].
  destruct (Hf (world p)) as (Hd & Hb & HB). split.
  - unfold registry_root in *. cbn [world has_instance set_world].
    by rewrite Hd, Hb, HB.
  - cbn [world has_instance set_world]. intros H. by apply HI, Hi.
Qed.

Lemma sound_BuildDir_get c p :
  sound c p →
  ∃ q, BuildDir_get p = (inr tt, q) ∧ sound c q ∧ has_instance q = true.
Proof.
  intros HJ. unfold BuildDir_get. destruct (has_instance p) eqn:Hp.
  - by exists p.
  - destruct HJ as [Hr Hi]. eexists. split; [done |]. split; [|done]. split.
    + unfold registry_root in *. rewrite Hp in Hr.
      cbn [world has_instance set_this disk this]. by rewrite BuildDir_init_default.
    + intros _. split; [by intros b Hb%elem_of_nil | done].
Qed.

(** A step of [main] that prints, and one that goes to the registry. *)
Lemma sound_print c s : pstep (sound c) (λ _ _, False) (method (print s)).
Proof.
  intros p HJ. rewrite print_run. cbn [fst snd].
  assert (pstable (sound c) (method (print s))) as H.
  { apply sound_method; [by intros w | intros w; apply Inv_stdout]. }
  specialize (H p HJ). by rewrite print_run in H.
Qed.

Lemma sound_registry_call c {A} (m : M A) :
  (∀ w, frame w [] (m w).2) → (∀ w, Inv [] w → Inv [] (m w).2) →
  (∀ w, Inv [] w →
        (c = false ∧ scannable (disk w) (build_dir (this w)) = true)
        ∨ disk w !! build_dir (this w) = None →
        ∃ a, (m w).1 = inr a) →
  pstep (sound c) (λ _ _, False) (pbind BuildDir_get (λ _, method m)).
Proof.
  intros Hf HI Hok p HJ. rewrite pbind_run.
  destruct (sound_BuildDir_get c p HJ) as (q & -> & HJq & Hq). cbv beta iota.
  pose proof (sound_method c m Hf HI q HJq) as HJ'.
  rewrite method_run in *. cbn [fst snd] in *.
  destruct HJq as [Hr Hi]. unfold registry_root in Hr. rewrite Hq in Hr.
  destruct (Hok (world q) (Hi Hq) Hr) as [a ->]. exact HJ'.
Qed.

Lemma sound_get_or_create_build c t v :
  pstep (sound c) (λ _ _, False) (BuildInfo_get_or_create (VPlatformInfo t) v).
Proof.
  unfold BuildInfo_get_or_create. apply sound_registry_call.
  - intros w. by apply (stable_get_or_create_build (frame w)) with (pins := []).
  - intros w. apply step_Inv. constructor.
  - intros w HI Hr. apply get_or_create_build_PlatformInfo_ok; [done | tauto].
Qed.

Lemma sound_get_build c pl v :
  pstep (sound c) (λ _ _, False) (BuildInfo_get pl v).
Proof.
  unfold BuildInfo_get. apply sound_registry_call.
  - intros w. by apply (stable_get_build (frame w)) with (pins := []).
  - intros w. apply step_Inv. constructor.
  - intros w HI Hr. apply get_build_ok. tauto.
Qed.

Lemma sound_clean_builds : pstep (sound true) (λ _ _, False) clean_builds.
Proof.
  unfold clean_builds. apply sound_registry_call.
  - intros w. by apply (stable_clean (frame w)) with (pins := []).
  - intros w. apply step_Inv. constructor.
  - intros w HI [[? _] | Hr]; [done |]. exists tt. by rewrite clean_missing_root.
Qed.

(** X25.  The runs of [main] that go through.  In a process that
    starts, when the platform string and the flags pass the first
    checks, the build directory can be scanned or is missing (with
    [--clean]: is missing), and [--publish] is not combined with
    [--run], [main] ends normally: no call to the registry raises,
    whatever the targets, the version and the other flags. *)
Theorem main_ends_normally (order : list PlatformInfo → list PlatformInfo)
    (info : string) (args : Args) (p : Process)
    (cp : PlatformInfo) (bt : list PlatformInfo) :
  PlatformInfo_current info = inr cp →
  targets_of args cp = inr bt →
  has_instance p = false →
  (arg_clean args = false ∧ scannable (disk (world p)) (BUILD_DIR (world p)) = true)
  ∨ disk (world p) !! BUILD_DIR (world p) = None →
  arg_publish args && arg_run args = false →
  (main order info args p).1 = inr tt.
Proof.
  intros Hcur Ht Hp Hroot Hflags.
  assert (pfinal (sound (arg_clean args)) (λ _ _, False) (λ _, True)
                 (main order info args)) as H.
  { apply main_triple_inputs.
    - intros e q He. congruence.
    - intros cp' e q Hc He. congruence.
    - intros cp'. apply sound_print.
    - intros s. apply sound_print.
    - intros Hc. rewrite Hc. apply sound_clean_builds.
    - intros cp' bt' t _ _ v. unfold build_target.
      apply pstep_bind; [apply sound_print |]. intros _.
      apply pstep_bind; [apply sound_get_or_create_build |]. intros _. apply pstep_ret.
    - intros cp' bt' _ _ _ v. unfold fetch_build.
      apply pstep_bind; [apply sound_print |]. intros _.
      apply pstep_bind; [apply sound_get_or_create_build |]. intros _. apply pstep_ret.
    - intros _ cp' v. unfold run_build.
      apply pstep_bind; [apply sound_print |]. intros _.
      apply pstep_bind; [apply sound_get_build |]. intros _. apply pstep_ret.
    - congruence.
    - intros _ v q HJ. unfold publish_build. rewrite print_run. done.
    - done. }
  assert (sound (arg_clean args) p) as HJ.
  { split; [unfold registry_root; by rewrite Hp | congruence]. }
  specialize (H p HJ). cbv beta in H.
  by destruct (main order info args p).1 as [s|[]].
Qed.

Lemma main_ends_normally_witness :
  let args := mkArgs (Some "v1.1") None true false true true false false in
  let p := boot disk_two [] in
  let cp := mkPlatformInfo "mac" "x86_64" in
  let bt := [mkPlatformInfo "mac" "x86_64"; mkPlatformInfo "windows" "x86_64";
             mkPlatformInfo "linux" "x86_64"] in
  (PlatformInfo_current "macOS-14.5-arm64-arm-64bit (Darwin)" = inr cp ∧
   targets_of args cp = inr bt ∧ has_instance p = false ∧
   ((arg_clean args = false ∧ scannable (disk (world p)) (BUILD_DIR (world p)) = true)
    ∨ disk (world p) !! BUILD_DIR (world p) = None) ∧
   arg_publish args && arg_run args = false) ∧
  (main (λ l, rev l) "macOS-14.5-arm64-arm-64bit (Darwin)" args p).1 = inr tt.
Proof.
  cbv zeta. split.
  - split; [vm_compute; reflexivity |]. split; [vm_compute; reflexivity |].
    split; [reflexivity |]. split; [left; split; vm_compute; reflexivity | reflexivity].
  - apply (main_ends_normally (λ l, rev l) "macOS-14.5-arm64-arm-64bit (Darwin)" _ _
             (mkPlatformInfo "mac" "x86_64")
             [mkPlatformInfo "mac" "x86_64"; mkPlatformInfo "windows" "x86_64";
              mkPlatformInfo "linux" "x86_64"]);
      [vm_compute; reflexivity | vm_compute; reflexivity | reflexivity
      | left; split; vm_compute; reflexivity | reflexivity].
Defined.

(** ** BuildDir.get_builds *)

(** X26.  The first [BuildDir.get_builds()] of a process creates the
    registry on [BUILD_DIR] and, when that directory can be scanned or
    is missing, returns one record for each (first-level,
    second-level) pair of names below it, in the order of the two
    listings, and nothing else.  A second call returns the same
    records and changes nothing: the registry is created once and
    reads the disk once. *)
Theorem BuildDir_get_builds_scans_once (p : Process) :
  has_instance p = false →
  scannable (disk (world p)) (BUILD_DIR (world p)) = true
  ∨ disk (world p) !! BUILD_DIR (world p) = None →
  ∃ bs q, BuildDir_get_builds p = (inr bs, q) ∧
    map identity bs = disk_pairs (disk (world p)) (BUILD_DIR (world p)) ∧
    disk (world q) = disk (world p) ∧
    BuildDir_get_builds q = (inr bs, q).
Proof.
  intros Hp Hroot. unfold BuildDir_get_builds at 1. rewrite pbind_run.
  unfold BuildDir_get at 1. rewrite Hp. cbv beta iota. rewrite method_run. cbn [world].
  set (w1 := set_this _ (world p)).
  assert (build_dir (this w1) = BUILD_DIR (world p)) as Hbd
    by apply BuildDir_init_default.
  assert (scannable (disk w1) (build_dir (this w1)) = true
          ∨ disk w1 !! build_dir (this w1) = None) as Hroot1 by by rewrite Hbd.
  rewrite (get_build_list_first w1 eq_refl Hroot1). cbv zeta. rewrite Hbd. cbn [fst snd].
  eexists _, _. split; [reflexivity |]. split; [apply mk_records_identity |].
  split; [reflexivity |].
  unfold BuildDir_get_builds. rewrite pbind_run. unfold BuildDir_get at 1.
  cbn [has_instance set_world]. cbv beta iota. rewrite method_run.
  cbn [world set_world].
  set (bs := mk_records _ _ _ _).
  by rewrite (get_build_list_loaded
                (set_build_list (Some bs) (set_heap (heap w1 ++ bs) w1)) bs eq_refl).
Qed.

Lemma BuildDir_get_builds_scans_once_witness :
  let p := boot disk_two [] in
  (has_instance p = false ∧
   (scannable (disk (world p)) (BUILD_DIR (world p)) = true
    ∨ disk (world p) !! BUILD_DIR (world p) = None)) ∧
  ∃ bs q, BuildDir_get_builds p = (inr bs, q) ∧
    map identity bs = disk_pairs (disk (world p)) (BUILD_DIR (world p)) ∧
    disk (world q) = disk (world p) ∧
    BuildDir_get_builds q = (inr bs, q).
Proof.
  cbv zeta. split.
  - split; [reflexivity | left; vm_compute; reflexivity].
  - apply (BuildDir_get_builds_scans_once (boot disk_two []));
      [reflexivity | left; vm_compute; reflexivity].
Defined.
